(** * IRelayControl: IR relay controller with a code-learning mode

    A shallow embedding of [IRelayControl.ino].  The sketch keeps two global
    arrays ([hex_codes], [relay_states]), mirrors them in the EEPROM and
    talks to the outside world through the serial port, the digital lines
    and the IR decoder.  The globals, the EEPROM cells and the output
    latches are fields of one [state] value which every function threads
    explicitly; everything the sketch does to the outside is appended, in
    program order, to the [trace] field.  What the sketch reads from the
    outside (the config button, the results of [IrReceiver.decode()]) is
    passed in as explicit input. *)

From Stdlib Require Import ZArith String.
From stdpp Require Import base tactics option list gmap.

Local Open Scope Z_scope.

(** ** Constants of the sketch *)

Definition CONFIG_BUTTON : Z := 6.
Definition IR_RECEIVE_PIN : Z := 5.
Definition RELAY_STATE_ADDR : Z := 16.
Definition CONFIG_IR_CODE : Z := 0xE51A7F80.

Definition RELAY_PINS : list Z := [8; 9; 10; 11].
Definition NUM_RELAYS : nat := length RELAY_PINS.

(** [LED_BUILTIN] comes from the board's core headers, not from the sketch;
    13 is its value on the Uno and Nano boards the sketch is written for. *)
Definition LED_BUILTIN : Z := 13.

(** ** Digital levels *)

Inductive level := LOW | HIGH.

Global Instance level_eq_dec : EqDecision level.
Proof. solve_decision. Defined.

Global Instance level_inhabited : Inhabited level := populate LOW.

(** [!x] on a level read back with [digitalRead], written with
    [digitalWrite]: 0 becomes 1 and anything else 0. *)
Definition level_not (l : level) : level :=
  match l with LOW => HIGH | HIGH => LOW end.

(** [relay_states[i] ? LOW : HIGH] *)
Definition relay_level (on : bool) : level := if on then LOW else HIGH.

(** [relay_states[i] ? " ON" : " OFF"] *)
Definition on_off (on : bool) : string := if on then " ON" else " OFF".

(** ** Everything the sketch does to the outside world *)

Inductive event :=
| SerialBegin (baud : Z)
| SerialPrint (s : string)
| SerialPrintln (s : string)
| SerialPrintNum (n : Z)
| SerialPrintlnHex (n : Z)
| IrBegin (pin : Z)
| IrResume
| PinModeOutput (pin : Z)
| PinModeInputPullup (pin : Z)
| DigitalWrite (pin : Z) (l : level)
| Delay (ms : Z)
| EepromUpdate (addr : Z) (byte : Z)
| EepromPut (addr : Z) (codes : list Z).

Global Instance event_eq_dec : EqDecision event.
Proof. solve_decision. Defined.

(** ** Program state *)

Record state := mkState {
  hex_codes : list Z;        (* uint32_t hex_codes[NUM_RELAYS] *)
  relay_states : list bool;  (* bool relay_states[NUM_RELAYS] *)
  eeprom : gmap Z Z;         (* EEPROM cells, one byte each *)
  pins : gmap Z level;       (* level last driven on each digital line *)
  trace : list event         (* outside-visible actions, oldest first *)
}.

Definition set_hex_codes (v : list Z) (st : state) : state :=
  mkState v (relay_states st) (eeprom st) (pins st) (trace st).
Definition set_relay_states (v : list bool) (st : state) : state :=
  mkState (hex_codes st) v (eeprom st) (pins st) (trace st).
Definition set_eeprom (v : gmap Z Z) (st : state) : state :=
  mkState (hex_codes st) (relay_states st) v (pins st) (trace st).
Definition set_pins (v : gmap Z level) (st : state) : state :=
  mkState (hex_codes st) (relay_states st) (eeprom st) v (trace st).

Definition emit (e : event) (st : state) : state :=
  mkState (hex_codes st) (relay_states st) (eeprom st) (pins st)
          (trace st ++ [e]).

(** The globals are zero-initialised before [setup] runs. *)
Definition power_on (e : gmap Z Z) (p : gmap Z level) : state :=
  mkState (replicate NUM_RELAYS 0) (replicate NUM_RELAYS false) e p [].

(** ** Digital lines *)

Definition digitalWrite (pin : Z) (l : level) (st : state) : state :=
  emit (DigitalWrite pin l) (set_pins (<[pin := l]> (pins st)) st).

(** Reading an output line gives back the level it drives. *)
Definition digitalRead (pin : Z) (st : state) : level :=
  default LOW (pins st !! pin).

Definition delay (ms : Z) (st : state) : state := emit (Delay ms) st.

(** ** EEPROM

    A cell that was never written reads as the erased value 0xFF. *)

Definition EEPROM_read (addr : Z) (e : gmap Z Z) : Z :=
  default 255 (e !! addr).

(** [EEPROM.update]: the cell is written only when its content differs. *)
Definition EEPROM_update (addr : Z) (byte : Z) (e : gmap Z Z) : gmap Z Z :=
  if decide (EEPROM_read addr e = byte) then e else <[addr := byte]> e.

(** The four bytes of a [uint32_t], least significant first. *)
Definition u32_bytes (c : Z) : list Z :=
  [Z.land c 255;
   Z.land (Z.shiftr c 8) 255;
   Z.land (Z.shiftr c 16) 255;
   Z.land (Z.shiftr c 24) 255].

Definition u32_of_bytes (b0 b1 b2 b3 : Z) : Z :=
  Z.lor b0 (Z.lor (Z.shiftl b1 8) (Z.lor (Z.shiftl b2 16) (Z.shiftl b3 24))).

(** [EEPROM.put] walks over the object's bytes and updates cell after cell. *)
Fixpoint EEPROM_put_bytes (addr : Z) (bs : list Z) (e : gmap Z Z) : gmap Z Z :=
  match bs with
  | [] => e
  | b :: bs' => EEPROM_put_bytes (addr + 1) bs' (EEPROM_update addr b e)
  end.

Definition EEPROM_put (addr : Z) (codes : list Z) (e : gmap Z Z) : gmap Z Z :=
  EEPROM_put_bytes addr (concat (map u32_bytes codes)) e.

Definition EEPROM_get_u32 (addr : Z) (e : gmap Z Z) : Z :=
  u32_of_bytes (EEPROM_read addr e) (EEPROM_read (addr + 1) e)
               (EEPROM_read (addr + 2) e) (EEPROM_read (addr + 3) e).

(** [EEPROM.get(addr, hex_codes)]: [NUM_RELAYS] consecutive words. *)
Definition EEPROM_get (addr : Z) (e : gmap Z Z) : list Z :=
  map (fun i : nat => EEPROM_get_u32 (addr + 4 * Z.of_nat i) e)
      (seq 0 NUM_RELAYS).

(** ** [setup] *)

(** Body of the first [for] loop of [setup], for one index. *)
Definition setup_relay (st : state) (i : nat) : state :=
  let pin := RELAY_PINS !!! i in
  let st := emit (PinModeOutput pin) st in
  let on := negb (EEPROM_read (RELAY_STATE_ADDR + Z.of_nat i) (eeprom st) =? 0) in
  let st := set_relay_states (<[i := on]> (relay_states st)) st in
  let st := digitalWrite pin (relay_level on) st in
  let st := emit (SerialPrint "Relay ") st in
  let st := emit (SerialPrintNum (Z.of_nat i)) st in
  emit (SerialPrintln (on_off on)) st.

(** Body of the second [for] loop of [setup]. *)
Definition setup_report (st : state) (i : nat) : state :=
  let st := emit (SerialPrint "Relay ") st in
  let st := emit (SerialPrintNum (Z.of_nat i)) st in
  let st := emit (SerialPrint " code: ") st in
  emit (SerialPrintlnHex (hex_codes st !!! i)) st.

(** The statements of [setup] before its first loop. *)
Definition setup_begin (st : state) : state :=
  let st := emit (SerialBegin 115200) st in
  let st := emit (IrBegin IR_RECEIVE_PIN) st in
  let st := emit (PinModeOutput LED_BUILTIN) st in
  emit (PinModeInputPullup CONFIG_BUTTON) st.

(** [for (i = 0; i < NUM_RELAYS; i++)], first and second loop. *)
Definition setup_relays (st : state) : state :=
  foldl setup_relay st (seq 0 NUM_RELAYS).

Definition setup_reports (st : state) : state :=
  foldl setup_report st (seq 0 NUM_RELAYS).

Definition setup (st : state) : state :=
  let st := setup_begin st in
  let st := setup_relays st in
  let st := set_hex_codes (EEPROM_get 0 (eeprom st)) st in
  setup_reports st.

(** ** [toggleRelay]

    The sketch calls it with [index < NUM_RELAYS] only; an index outside
    the arrays is undefined behaviour in C and is not given a meaning
    here (the list update is then void). *)
Definition toggleRelay (index : nat) (st : state) : state :=
  let on := negb (relay_states st !!! index) in
  let st := set_relay_states (<[index := on]> (relay_states st)) st in
  let st := digitalWrite (RELAY_PINS !!! index) (relay_level on) st in
  let addr := RELAY_STATE_ADDR + Z.of_nat index in
  let byte := if on then 1 else 0 in
  let st := emit (EepromUpdate addr byte)
                 (set_eeprom (EEPROM_update addr byte (eeprom st)) st) in
  let st := emit (SerialPrint "Relay ") st in
  let st := emit (SerialPrintNum (Z.of_nat index)) st in
  emit (SerialPrintln (on_off on)) st.

(** ** Input

    Each call of [IrReceiver.decode()] consumes one element of a list of
    polls: [None] when nothing was decoded, [Some c] when [decodedRawData]
    holds [c].  A run observed over a finite list of polls can end with
    the sketch still waiting for input; [Pending] records the state it
    has reached by then. *)

Inductive outcome :=
| Returned (st : state) (rest : list (option Z))
| Pending (st : state).

Definition final_state (o : outcome) : state :=
  match o with Returned st _ => st | Pending st => st end.

(** ** [enterConfigMode] *)

(** The duplicate search: [for (i = 0; i < codes_stored; i++)] with its
    [break]; [n] counts the indices still to visit. *)
Fixpoint is_duplicate (n i : nat) (ir_code : Z) (codes : list Z) : bool :=
  match n with
  | O => false
  | S n' => if decide (codes !!! i = ir_code) then true
            else is_duplicate n' (S i) ir_code codes
  end.

(** One round of the error cue. *)
Definition error_blink (st : state) (_ : nat) : state :=
  let st := digitalWrite LED_BUILTIN HIGH st in
  let st := delay 100 st in
  let st := digitalWrite LED_BUILTIN LOW st in
  delay 100 st.

(** The [else] branch: "Duplicate!" and three rapid blinks. *)
Definition report_duplicate (st : state) : state :=
  let st := emit (SerialPrintln "Duplicate!") st in
  foldl error_blink st (seq 0 3).

(** The [if (!duplicate)] branch, up to [codes_stored++]. *)
Definition store_code (ir_code : Z) (codes_stored : nat) (st : state) : state :=
  let st := set_hex_codes (<[codes_stored := ir_code]> (hex_codes st)) st in
  let st := emit (SerialPrint "Stored code ") st in
  let st := emit (SerialPrintNum (Z.of_nat codes_stored)) st in
  let st := emit (SerialPrint ": ") st in
  let st := emit (SerialPrintlnHex ir_code) st in
  let st := digitalWrite LED_BUILTIN HIGH st in
  let st := delay 100 st in
  digitalWrite LED_BUILTIN LOW st.

(** The slow blink at the head of every iteration. *)
Definition wait_blink (st : state) : state :=
  let st := digitalWrite LED_BUILTIN (level_not (digitalRead LED_BUILTIN st)) st in
  delay 300 st.

(** What is done with a decoded code, [IrReceiver.resume()] excluded. *)
Definition learn (ir_code : Z) (codes_stored : nat) (st : state) : nat * state :=
  if negb (ir_code =? 0) && negb (ir_code =? CONFIG_IR_CODE) then
    if is_duplicate codes_stored 0 ir_code (hex_codes st)
    then (codes_stored, report_duplicate st)
    else (S codes_stored, store_code ir_code codes_stored st)
  else (codes_stored, st).

(** One iteration of the [while] loop, given the result of its poll. *)
Definition config_iter (poll : option Z) (codes_stored : nat) (st : state)
  : nat * state :=
  let st := wait_blink st in
  match poll with
  | None => (codes_stored, st)
  | Some ir_code =>
      let '(k, st) := learn ir_code codes_stored st in
      (k, emit IrResume st)
  end.

(** [while (codes_stored < NUM_RELAYS)].  The result carries the value of
    [codes_stored], the state and the polls not consumed; the loop was
    left iff the returned count is no longer below [NUM_RELAYS]. *)
Fixpoint config_loop (polls : list (option Z)) (codes_stored : nat) (st : state)
  : nat * state * list (option Z) :=
  if decide (codes_stored < NUM_RELAYS)%nat then
    match polls with
    | [] => (codes_stored, st, [])
    | poll :: polls' =>
        let '(k, st') := config_iter poll codes_stored st in
        config_loop polls' k st'
    end
  else (codes_stored, st, polls).

(** From the start of [enterConfigMode] to the head of the loop. *)
Definition config_entry (st : state) : state :=
  let st := emit (SerialPrintln "Entering Config Mode") st in
  let st := digitalWrite LED_BUILTIN HIGH st in
  let st := delay 1000 st in
  let st := digitalWrite LED_BUILTIN LOW st in
  set_hex_codes (replicate NUM_RELAYS 0) st.

(** What follows the loop. *)
Definition config_exit (st : state) : state :=
  let st := emit (EepromPut 0 (hex_codes st))
                 (set_eeprom (EEPROM_put 0 (hex_codes st) (eeprom st)) st) in
  let st := emit (SerialPrintln "Configuration Saved") st in
  digitalWrite LED_BUILTIN HIGH st.

Definition enterConfigMode (polls : list (option Z)) (st : state) : outcome :=
  let '(codes_stored, st, rest) := config_loop polls 0 (config_entry st) in
  if decide (codes_stored < NUM_RELAYS)%nat then Pending st
  else Returned (config_exit st) rest.

(** ** [loop] *)

(** The table scan: [for (i = 0; i < NUM_RELAYS; i++)] with its [break];
    [n] counts the indices still to visit. *)
Fixpoint scan (n i : nat) (ir_code : Z) (st : state) : state :=
  match n with
  | O => st
  | S n' => if decide (ir_code = hex_codes st !!! i) then toggleRelay i st
            else scan n' (S i) ir_code st
  end.

(** Body of [if (IrReceiver.decode())]. *)
Definition handle_ir (ir_code : Z) (polls : list (option Z)) (st : state)
  : outcome :=
  let st := emit (SerialPrint "IR Received: ") st in
  let st := emit (SerialPrintlnHex ir_code) st in
  let o :=
    if ir_code =? CONFIG_IR_CODE then
      enterConfigMode polls (emit (SerialPrintln "IR Config Trigger") st)
    else Returned (scan NUM_RELAYS 0 ir_code st) polls in
  match o with
  | Returned st rest => Returned (emit IrResume st) rest
  | Pending st => Pending st
  end.

(** The two reads of the config button in one pass of [loop]; the second
    one is made only when the first is [LOW]. *)
Record button := mkButton { first_read : level; second_read : level }.

Definition check_button (b : button) (polls : list (option Z)) (st : state)
  : outcome :=
  match first_read b with
  | LOW =>
      let st := delay 50 st in
      match second_read b with
      | LOW => enterConfigMode polls st
      | HIGH => Returned st polls
      end
  | HIGH => Returned st polls
  end.

Definition loop (b : button) (polls : list (option Z)) (st : state) : outcome :=
  match check_button b polls st with
  | Pending st => Pending st
  | Returned st polls =>
      match polls with
      | [] => Pending st
      | None :: rest => Returned st rest
      | Some ir_code :: rest => handle_ir ir_code rest st
      end
  end.

(** [setup] once, then [loop] for as long as buttons are observed. *)
Fixpoint run (bs : list button) (polls : list (option Z)) (st : state)
  : outcome :=
  match bs with
  | [] => Returned st polls
  | b :: bs' =>
      match loop b polls st with
      | Returned st' rest => run bs' rest st'
      | Pending st' => Pending st'
      end
  end.

Definition sketch (e : gmap Z Z) (p : gmap Z level)
    (bs : list button) (polls : list (option Z)) : outcome :=
  run bs polls (setup (power_on e p)).

(** ** Vocabulary of the statements *)

(** A code the learning loop may store: [ir_code != 0 && ir_code != CONFIG_IR_CODE]. *)
Definition learnable (c : Z) : Prop := c ≠ 0 ∧ c ≠ CONFIG_IR_CODE.

Global Instance learnable_dec c : Decision (learnable c).
Proof. unfold learnable. apply _. Defined.

Definition is_uint32 (c : Z) : Prop := 0 ≤ c < 2 ^ 32.

Definition poll_uint32 (poll : option Z) : Prop :=
  match poll with Some c => is_uint32 c | None => True end.

(** The buffer holds the codes [p] in its first [k] slots and the zeros of
    the reset in the others. *)
Definition filled_with (p : list Z) (k : nat) (st : state) : Prop :=
  k = length p ∧ (k ≤ NUM_RELAYS)%nat ∧
  hex_codes st = p ++ replicate (NUM_RELAYS - k) 0.

(** What one poll does to the list of codes placed so far. *)
Definition accept (p : list Z) (poll : option Z) : list Z :=
  match poll with
  | Some c => if decide (learnable c ∧ c ∉ p) then p ++ [c] else p
  | None => p
  end.

(** A submission the loop turns down at count [k]: zero, the trigger code,
    or a code already placed in one of the first [k] slots. *)
Definition rejected (c : Z) (k : nat) (st : state) : Prop :=
  c = 0 ∨ c = CONFIG_IR_CODE ∨
  ∃ j : nat, (j < k)%nat ∧ hex_codes st !! j = Some c.

(** [j] is the lowest slot of the table holding [c]. *)
Definition first_match (c : Z) (j : nat) (st : state) : Prop :=
  (j < NUM_RELAYS)%nat ∧ hex_codes st !! j = Some c ∧
  ∀ i : nat, (i < j)%nat → hex_codes st !! i ≠ Some c.

Definition is_eeprom_write (ev : event) : Prop :=
  match ev with
  | EepromUpdate _ _ | EepromPut _ _ => True
  | _ => False
  end.

(** An action on a relay: its line is driven or its state byte updated. *)
Definition is_relay_action (ev : event) : Prop :=
  match ev with
  | DigitalWrite pin _ => pin ∈ RELAY_PINS
  | EepromUpdate _ _ => True
  | _ => False
  end.

(** The state byte of channel [i] as the EEPROM holds it. *)
Definition state_byte (i : nat) (st : state) : Z :=
  EEPROM_read (RELAY_STATE_ADDR + Z.of_nat i) (eeprom st).

(** Active-low wiring: every relay line is at the inverse of its state. *)
Definition active_low (st : state) : Prop :=
  ∀ i : nat, (i < NUM_RELAYS)%nat →
    pins st !! (RELAY_PINS !!! i) = Some (relay_level (relay_states st !!! i)).

(** The in-memory states are those the state bytes read as. *)
Definition in_sync (st : state) : Prop :=
  ∀ i : nat, (i < NUM_RELAYS)%nat →
    relay_states st !! i = Some (negb (state_byte i st =? 0)).

(** What the learning mode leaves alone: the relay states, every line but
    the indicator, every EEPROM cell outside the code table. *)
Definition relays_untouched (st st' : state) : Prop :=
  relay_states st' = relay_states st ∧
  (∀ pin, pin ≠ LED_BUILTIN → pins st' !! pin = pins st !! pin) ∧
  (∀ a, ¬ (0 ≤ a < 4 * Z.of_nat NUM_RELAYS) → eeprom st' !! a = eeprom st !! a).

(** What a list of polls does to the codes placed so far: the loop stops
    looking at polls once [NUM_RELAYS] codes are placed. *)
Fixpoint accept_all (polls : list (option Z)) (p : list Z) : list Z :=
  if decide (length p < NUM_RELAYS)%nat then
    match polls with
    | [] => p
    | poll :: polls' => accept_all polls' (accept p poll)
    end
  else p.

(** An event that is neither an EEPROM write nor an action on a relay. *)
Definition signal_only (ev : event) : Prop :=
  ¬ is_eeprom_write ev ∧ ¬ is_relay_action ev.

(** [st'] comes from [st] by indicator and status signalling alone. *)
Definition signals_only (st st' : state) : Prop :=
  eeprom st' = eeprom st ∧ relay_states st' = relay_states st ∧
  (∀ pin, pin ≠ LED_BUILTIN → pins st' !! pin = pins st !! pin) ∧
  ∃ evs, trace st' = trace st ++ evs ∧ Forall signal_only evs.

(** The events of the duplicate branch, in order. *)
Definition duplicate_cue : list event :=
  [SerialPrintln "Duplicate!";
   DigitalWrite LED_BUILTIN HIGH; Delay 100; DigitalWrite LED_BUILTIN LOW; Delay 100;
   DigitalWrite LED_BUILTIN HIGH; Delay 100; DigitalWrite LED_BUILTIN LOW; Delay 100;
   DigitalWrite LED_BUILTIN HIGH; Delay 100; DigitalWrite LED_BUILTIN LOW; Delay 100].

(** The events of the accepting branch for code [c] at slot [k]. *)
Definition stored_cue (k : nat) (c : Z) : list event :=
  [SerialPrint "Stored code "; SerialPrintNum (Z.of_nat k); SerialPrint ": ";
   SerialPrintlnHex c;
   DigitalWrite LED_BUILTIN HIGH; Delay 100; DigitalWrite LED_BUILTIN LOW].

(** The events on entry to the learning mode. *)
Definition entry_cue : list event :=
  [SerialPrintln "Entering Config Mode";
   DigitalWrite LED_BUILTIN HIGH; Delay 1000; DigitalWrite LED_BUILTIN LOW].

(** The waiting blink when the indicator was off. *)
Definition waiting_blink : list event :=
  [DigitalWrite LED_BUILTIN HIGH; Delay 300].

(** The scenario of the specification. *)
Definition scenario_polls : list (option Z) :=
  [Some 0x11; Some 0x22; Some 0x11; Some 0x33; Some 0x44].

Definition scenario_events : list event :=
  entry_cue ++
  waiting_blink ++ stored_cue 0 0x11 ++ [IrResume] ++
  waiting_blink ++ stored_cue 1 0x22 ++ [IrResume] ++
  waiting_blink ++ duplicate_cue ++ [IrResume] ++
  waiting_blink ++ stored_cue 2 0x33 ++ [IrResume] ++
  waiting_blink ++ stored_cue 3 0x44 ++ [IrResume] ++
  [EepromPut 0 [0x11; 0x22; 0x33; 0x44];
   SerialPrintln "Configuration Saved";
   DigitalWrite LED_BUILTIN HIGH].

(** The events of one [toggleRelay(j)] that brings the channel to [on]. *)
Definition toggle_events (j : nat) (on : bool) : list event :=
  [DigitalWrite (RELAY_PINS !!! j) (relay_level on);
   EepromUpdate (RELAY_STATE_ADDR + Z.of_nat j) (if on then 1 else 0);
   SerialPrint "Relay "; SerialPrintNum (Z.of_nat j);
   SerialPrintln (on_off on)].

(** Receiving [c] in Normal mode toggles channel [j], once, and nothing
    else: [loop] goes on with the same polls, only the state of channel
    [j] is flipped, and the events are those of one [toggleRelay(j)]
    between the report of the code and the resume of the decoder. *)
Definition toggled_once (c : Z) (j : nat) (polls : list (option Z))
    (st : state) : Prop :=
  ∃ st', handle_ir c polls st = Returned st' polls ∧
    relay_states st' = <[j := negb (relay_states st !!! j)]> (relay_states st) ∧
    trace st' = trace st ++
      [SerialPrint "IR Received: "; SerialPrintlnHex c] ++
      toggle_events j (negb (relay_states st !!! j)) ++ [IrResume].

(** An EEPROM whose code table holds the trigger code in slot 0. *)
Definition trigger_eeprom : gmap Z Z :=
  EEPROM_put 0 [CONFIG_IR_CODE; 0x11; 0x22; 0x33] ∅.

(** An EEPROM whose code table has unprogrammed slots 1 and 3. *)
Definition blank_slots_eeprom : gmap Z Z :=
  EEPROM_put 0 [0x11; 0; 0x22; 0] ∅.

(** What holds of the relays from the end of [setup] on. *)
Definition relay_inv (st : state) : Prop :=
  length (relay_states st) = NUM_RELAYS ∧ active_low st ∧ in_sync st.

(** The state in which [handle_ir] calls [enterConfigMode]. *)
Definition trigger_reported (st : state) : state :=
  emit (SerialPrintln "IR Config Trigger")
    (emit (SerialPrintlnHex CONFIG_IR_CODE)
       (emit (SerialPrint "IR Received: ") st)).

(** The state after [loop] has reported a received code. *)
Definition ir_reported (c : Z) (st : state) : state :=
  emit (SerialPrintlnHex c) (emit (SerialPrint "IR Received: ") st).

(** The table in memory is the one the EEPROM holds. *)
Definition codes_in_sync (st : state) : Prop :=
  hex_codes st = EEPROM_get 0 (eeprom st).

(** The state reached by the scenario of the specification from power-on
    with an erased EEPROM. *)
Definition scenario_state : state :=
  final_state (enterConfigMode scenario_polls (power_on ∅ ∅)).

(** What holds when a call is back in Normal mode: the table in memory
    is the persisted one, and the polls left are [uint32_t] values. *)
Definition normal_ok (o : outcome) : Prop :=
  match o with
  | Returned st rest => codes_in_sync st ∧ Forall poll_uint32 rest
  | Pending _ => True
  end.

(** The learnable codes among the polls, in the order received. *)
Definition learnable_codes (polls : list (option Z)) : list Z :=
  omap (λ poll : option Z,
          match poll with
          | Some c => if decide (learnable c) then Some c else None
          | None => None
          end) polls.

(** [x] put after the codes [acc] unless it is among them. *)
Definition place (acc : list Z) (x : Z) : list Z :=
  if decide (x ∈ acc) then acc else acc ++ [x].

(** A list without its repetitions, each element where it first occurs. *)
Definition first_occurrences (l : list Z) : list Z := foldl place [] l.

(** ** The EEPROM as a byte store *)

Lemma EEPROM_read_update_eq a b e : EEPROM_read a (EEPROM_update a b e) = b.
Proof.
  unfold EEPROM_update. case_decide; [done|].
  unfold EEPROM_read. by rewrite lookup_insert_eq.
Qed.

Lemma EEPROM_update_lookup_ne a a' b e :
  a ≠ a' → EEPROM_update a b e !! a' = e !! a'.
Proof.
  intros Hne. unfold EEPROM_update. case_decide; [done|].
  by rewrite lookup_insert_ne.
Qed.

Lemma EEPROM_read_update_ne a a' b e :
  a ≠ a' → EEPROM_read a' (EEPROM_update a b e) = EEPROM_read a' e.
Proof. intros Hne. unfold EEPROM_read. by rewrite EEPROM_update_lookup_ne. Qed.

Lemma EEPROM_put_bytes_lookup_out bs : ∀ addr e a,
  ¬ (addr ≤ a < addr + Z.of_nat (length bs)) →
  EEPROM_put_bytes addr bs e !! a = e !! a.
Proof.
  induction bs as [|b bs IH]; intros addr e a Hout; simpl in *; [done|].
  rewrite IH by lia. apply EEPROM_update_lookup_ne. lia.
Qed.

Lemma EEPROM_put_bytes_read bs : ∀ addr e (i : nat) b,
  bs !! i = Some b →
  EEPROM_read (addr + Z.of_nat i) (EEPROM_put_bytes addr bs e) = b.
Proof.
  induction bs as [|b0 bs IH]; intros addr e i b Hi; [done|].
  destruct i as [|i]; simpl in *.
  - injection Hi as ->.
    replace (addr + Z.of_nat 0) with addr by lia.
    unfold EEPROM_read at 1.
    rewrite EEPROM_put_bytes_lookup_out by lia.
    apply EEPROM_read_update_eq.
  - replace (addr + Z.of_nat (S i)) with (addr + 1 + Z.of_nat i) by lia.
    by apply IH.
Qed.

Lemma u32_of_bytes_u32_bytes c :
  is_uint32 c →
  u32_of_bytes (Z.land c 255) (Z.land (Z.shiftr c 8) 255)
               (Z.land (Z.shiftr c 16) 255) (Z.land (Z.shiftr c 24) 255) = c.
Proof.
  intros [Hlo Hhi]. unfold u32_of_bytes.
  change 255 with (Z.ones 8).
  apply Z.bits_inj'. intros n Hn.
  rewrite !Z.lor_spec, !Z.shiftl_spec, !Z.land_spec by lia.
  assert (Hhigh : ∀ m, 32 ≤ m → Z.testbit c m = false).
  { intros m Hm. destruct (decide (c = 0)) as [->|Hc0]; [apply Z.bits_0|].
    apply Z.bits_above_log2; [lia|].
    apply Z.lt_le_trans with 32; [|done]. apply Z.log2_lt_pow2; lia. }
  rewrite !Z.testbit_ones by lia.
  repeat match goal with
    | |- context [?a <=? ?b] => destruct (Z.leb_spec a b); try lia
    | |- context [?a <? ?b] => destruct (Z.ltb_spec a b); try lia
    end; simpl;
    rewrite ?andb_false_r, ?andb_true_r, ?orb_false_r, ?orb_false_l;
    rewrite ?Z.shiftr_spec by lia;
    try (f_equal; lia).
  symmetry. apply Hhigh. lia.
Qed.

Lemma EEPROM_put_bytes_read_at bs e a b :
  0 ≤ a → bs !! Z.to_nat a = Some b →
  EEPROM_read a (EEPROM_put_bytes 0 bs e) = b.
Proof.
  intros Ha Hb.
  rewrite <- (EEPROM_put_bytes_read bs 0 e (Z.to_nat a) b Hb).
  f_equal. lia.
Qed.

(** What [EEPROM.put] wrote is what [EEPROM.get] reads back. *)
Lemma EEPROM_get_put codes e :
  length codes = NUM_RELAYS → Forall is_uint32 codes →
  EEPROM_get 0 (EEPROM_put 0 codes e) = codes.
Proof.
  intros Hlen Hall.
  destruct codes as [|c0 [|c1 [|c2 [|c3 [|]]]]]; try discriminate.
  apply Forall_cons in Hall as [H0 Hall].
  apply Forall_cons in Hall as [H1 Hall].
  apply Forall_cons in Hall as [H2 Hall].
  apply Forall_cons in Hall as [H3 _].
  unfold EEPROM_get, EEPROM_put, EEPROM_get_u32.
  cbn [seq map NUM_RELAYS RELAY_PINS length concat u32_bytes app].
  repeat match goal with
    | |- context [EEPROM_read ?a (EEPROM_put_bytes 0 ?bs ?e)] =>
        rewrite (EEPROM_put_bytes_read_at bs e a _ ltac:(lia) eq_refl)
    end.
  by rewrite !u32_of_bytes_u32_bytes.
Qed.

Lemma EEPROM_put_lookup_out codes e a :
  ¬ (0 ≤ a < 4 * Z.of_nat (length codes)) →
  EEPROM_put 0 codes e !! a = e !! a.
Proof.
  intros Hout. unfold EEPROM_put. apply EEPROM_put_bytes_lookup_out.
  assert (length (concat (map u32_bytes codes)) = (4 * length codes)%nat) as ->.
  { clear Hout. induction codes as [|c codes IH]; [done|].
    cbn [map concat u32_bytes app length]. rewrite IH. lia. }
  lia.
Qed.

(** ** The learning loop *)

Lemma learnable_test c :
  negb (c =? 0) && negb (c =? CONFIG_IR_CODE) = bool_decide (learnable c).
Proof.
  unfold learnable.
  destruct (Z.eqb_spec c 0), (Z.eqb_spec c CONFIG_IR_CODE); simpl;
    symmetry; (apply bool_decide_eq_true_2 || apply bool_decide_eq_false_2);
    tauto.
Qed.

Lemma is_duplicate_spec n : ∀ i c codes,
  is_duplicate n i c codes = true ↔
  ∃ j : nat, (i ≤ j < i + n)%nat ∧ codes !!! j = c.
Proof.
  induction n as [|n IH]; intros i c codes; simpl.
  - split; [done|]. intros (j & ? & _). lia.
  - case_decide as Hi.
    + split; [|done]. intros _. exists i. split; [lia|done].
    + rewrite IH. split; intros (j & Hj & Hc).
      * exists j. split; [lia|done].
      * exists j. split; [|done].
        destruct (decide (j = i)) as [->|]; [done|lia].
Qed.

Lemma filled_with_lookup p k st (j : nat) :
  filled_with p k st → (j < k)%nat → hex_codes st !! j = p !! j.
Proof.
  intros (-> & _ & ->) Hj. by rewrite lookup_app_l.
Qed.

Lemma is_duplicate_filled p k st c :
  filled_with p k st →
  is_duplicate k 0 c (hex_codes st) = true ↔ c ∈ p.
Proof.
  intros Hf. rewrite is_duplicate_spec, list_elem_of_lookup.
  pose proof Hf as (Hk & _ & _).
  split.
  - intros (j & Hj & Hc). exists j.
    rewrite <- (filled_with_lookup p k st j Hf) by lia.
    rewrite <- Hc. apply list_lookup_lookup_total_lt.
    destruct Hf as (_ & _ & ->). rewrite length_app. lia.
  - intros (j & Hj). exists j.
    pose proof (lookup_lt_Some _ _ _ Hj).
    split; [lia|].
    apply list_lookup_total_correct.
    by rewrite (filled_with_lookup p k st j Hf) by lia.
Qed.

Lemma is_duplicate_rejected c k st (j : nat) :
  (j < k)%nat → hex_codes st !! j = Some c →
  is_duplicate k 0 c (hex_codes st) = true.
Proof.
  intros Hj Hc. apply is_duplicate_spec. exists j. split; [lia|].
  by apply list_lookup_total_correct.
Qed.

Lemma filled_with_store p k st c :
  filled_with p k st → (k < NUM_RELAYS)%nat →
  filled_with (p ++ [c]) (S k) (store_code c k st).
Proof.
  intros (-> & Hle & Hc) Hlt. split; [|split].
  - rewrite length_app. simpl. lia.
  - lia.
  - cbn [store_code digitalWrite delay emit set_pins set_hex_codes hex_codes].
    rewrite Hc.
    replace (NUM_RELAYS - length p)%nat with (S (NUM_RELAYS - S (length p))) by lia.
    cbn [replicate].
    rewrite insert_app_r_alt, Nat.sub_diag by lia.
    cbn [insert list_insert]. by rewrite <- app_assoc.
Qed.

Lemma learn_filled p k st c :
  filled_with p k st → (k < NUM_RELAYS)%nat →
  filled_with (accept p (Some c)) (learn c k st).1 (learn c k st).2.
Proof.
  intros Hf Hlt. unfold learn, accept. rewrite learnable_test.
  destruct (decide (learnable c)) as [Hl|Hl].
  - rewrite bool_decide_eq_true_2 by done.
    destruct (is_duplicate k 0 c (hex_codes st)) eqn:Hdup.
    + apply (is_duplicate_filled p k st c Hf) in Hdup.
      rewrite decide_False by tauto. exact Hf.
    + rewrite decide_True.
      * by apply filled_with_store.
      * split; [done|]. intros Hin.
        apply (is_duplicate_filled p k st c Hf) in Hin. congruence.
  - rewrite bool_decide_eq_false_2 by done.
    rewrite decide_False by tauto. exact Hf.
Qed.

Lemma config_iter_filled p k st poll :
  filled_with p k st → (k < NUM_RELAYS)%nat →
  filled_with (accept p poll) (config_iter poll k st).1 (config_iter poll k st).2.
Proof.
  intros Hf Hlt. unfold config_iter. destruct poll as [c|]; [|exact Hf].
  assert (Hw : filled_with p k (wait_blink st)) by exact Hf.
  pose proof (learn_filled p k (wait_blink st) c Hw Hlt) as Hl.
  destruct (learn c k (wait_blink st)) as [k' st']. exact Hl.
Qed.

Lemma config_loop_filled polls : ∀ p k st,
  filled_with p k st →
  filled_with (accept_all polls p)
              (config_loop polls k st).1.1 (config_loop polls k st).1.2.
Proof.
  induction polls as [|poll polls IH]; intros p k st Hf;
    pose proof Hf as (Hk & _ & _); simpl; rewrite <- Hk.
  - by case_decide.
  - case_decide as Hlt; [|done].
    pose proof (config_iter_filled p k st poll Hf Hlt) as Hi.
    destruct (config_iter poll k st) as [k' st']. by apply IH.
Qed.

Lemma config_entry_filled st : filled_with [] 0 (config_entry st).
Proof. split; [done|]. split; [simpl; lia|done]. Qed.

(** ** The codes placed, as a function of the polls *)

Lemma accept_prefix p poll : p `prefix_of` accept p poll.
Proof.
  destruct poll as [c|]; simpl; [|done].
  case_decide; [by apply prefix_app_r|done].
Qed.

Lemma accept_NoDup p poll : NoDup p → NoDup (accept p poll).
Proof.
  intros Hnd. destruct poll as [c|]; simpl; [|done].
  case_decide as Hc; [|done].
  apply NoDup_app. split; [done|]. split; [|apply NoDup_singleton].
  intros x Hx Hx'. apply list_elem_of_singleton in Hx' as ->. tauto.
Qed.

Lemma accept_Forall (P : Z → Prop) p poll :
  Forall P p → (∀ c, poll = Some c → P c) → Forall P (accept p poll).
Proof.
  intros Hp Hc. destruct poll as [c|]; simpl; [|done].
  case_decide; [|done]. apply Forall_app. split; [done|].
  apply Forall_singleton. by apply Hc.
Qed.

Lemma accept_learnable p poll :
  Forall learnable p → Forall learnable (accept p poll).
Proof.
  intros Hp. destruct poll as [c|]; simpl; [|done].
  case_decide as Hc; [|done]. apply Forall_app. split; [done|].
  apply Forall_singleton. tauto.
Qed.

Lemma accept_submitted p c : learnable c → c ∈ accept p (Some c).
Proof.
  intros Hl. simpl. case_decide as Hc.
  - apply elem_of_app. right. apply list_elem_of_singleton. done.
  - destruct (decide (c ∈ p)); [done|tauto].
Qed.

Lemma accept_length p poll :
  length (accept p poll) = length p ∨ length (accept p poll) = S (length p).
Proof.
  destruct poll as [c|]; simpl; [|by left].
  case_decide; [right|by left]. rewrite length_app. simpl. lia.
Qed.

Lemma foldl_accept_prefix polls : ∀ p, p `prefix_of` foldl accept p polls.
Proof.
  induction polls as [|poll polls IH]; intros p; simpl; [done|].
  etrans; [apply accept_prefix|apply IH].
Qed.

(** As long as slots remain, every poll has been looked at. *)
Lemma accept_all_short polls : ∀ p,
  (length (accept_all polls p) < NUM_RELAYS)%nat →
  accept_all polls p = foldl accept p polls.
Proof.
  induction polls as [|poll polls IH]; intros p; simpl.
  - by case_decide.
  - case_decide; [apply IH|lia].
Qed.

Lemma accept_all_ind (Q : list Z → Prop) polls :
  (∀ p poll, poll ∈ polls → Q p → Q (accept p poll)) →
  ∀ p, Q p → Q (accept_all polls p).
Proof.
  induction polls as [|poll polls IH]; intros Hstep p Hp; simpl.
  - by case_decide.
  - case_decide; [|done]. apply IH.
    + intros p' poll' Hin. apply Hstep. by apply list_elem_of_further.
    + apply Hstep; [apply list_elem_of_here|done].
Qed.

Lemma accept_all_NoDup polls p : NoDup p → NoDup (accept_all polls p).
Proof.
  apply (accept_all_ind NoDup). intros p' poll _. apply accept_NoDup.
Qed.

Lemma accept_all_learnable polls p :
  Forall learnable p → Forall learnable (accept_all polls p).
Proof.
  apply (accept_all_ind (Forall learnable)). intros p' poll _.
  apply accept_learnable.
Qed.

Lemma accept_all_uint32 polls p :
  Forall poll_uint32 polls → Forall is_uint32 p →
  Forall is_uint32 (accept_all polls p).
Proof.
  intros Hpolls. apply (accept_all_ind (Forall is_uint32)).
  intros p' poll Hin Hp'. apply accept_Forall; [done|].
  intros c ->. rewrite Forall_forall in Hpolls. apply (Hpolls _ Hin).
Qed.

(** A code that was submitted while slots remained is among the codes
    placed for as long as the loop runs. *)
Lemma accept_all_submitted pre c mid :
  learnable c →
  (length (accept_all (pre ++ Some c :: mid) []) < NUM_RELAYS)%nat →
  c ∈ accept_all (pre ++ Some c :: mid) [].
Proof.
  intros Hl Hlt. rewrite accept_all_short by done.
  rewrite foldl_app. simpl.
  eapply elem_of_prefix; [|apply foldl_accept_prefix].
  apply (accept_submitted _ _ Hl).
Qed.

Lemma filter_ne_notin (c : Z) (ds : list Z) : c ∉ ds → filter (λ d, d ≠ c) ds = ds.
Proof.
  induction ds as [|d ds IH]; intros Hc; [done|].
  apply not_elem_of_cons in Hc as [Hcd Hc].
  rewrite filter_cons_True by congruence. by rewrite IH.
Qed.

Lemma filter_ne_length (c : Z) (ds : list Z) :
  NoDup ds → (length ds ≤ S (length (filter (λ d, d ≠ c) ds)))%nat.
Proof.
  induction 1 as [|d ds Hd Hnd IH]; [simpl; lia|].
  destruct (decide (d = c)) as [->|Hdc].
  - rewrite filter_cons_False by tauto.
    rewrite filter_ne_notin by done. simpl. lia.
  - rewrite filter_cons_True by done. simpl. lia.
Qed.

(** Enough distinct learnable codes among the polls fill every slot. *)
Lemma accept_all_full polls : ∀ p ds,
  (length p ≤ NUM_RELAYS)%nat → NoDup ds → Forall learnable ds →
  (∀ d, d ∈ ds → Some d ∈ polls ∧ d ∉ p) →
  (NUM_RELAYS ≤ length p + length ds)%nat →
  length (accept_all polls p) = NUM_RELAYS.
Proof.
  induction polls as [|poll polls IH]; intros p ds Hp Hnd Hl Hds Hlen; simpl.
  - case_decide as Hlt; [|lia].
    destruct ds as [|d ds]; [simpl in Hlen; lia|].
    destruct (Hds d) as [Hin _]; [apply list_elem_of_here|].
    by apply elem_of_nil in Hin.
  - case_decide as Hlt; [|lia].
    assert (Hcase : (∃ c, poll = Some c ∧ learnable c ∧ c ∉ p) ∨
                    ¬ (∃ c, poll = Some c ∧ learnable c ∧ c ∉ p)).
    { destruct poll as [c|].
      - destruct (decide (learnable c ∧ c ∉ p)) as [[? ?]|Hn].
        + left. by exists c.
        + right. intros (c' & [= <-] & ? & ?). tauto.
      - right. by intros (c' & [=] & _). }
    destruct Hcase as [(c & -> & Hc & Hcp)|Hno].
    + apply (IH _ (filter (λ d, d ≠ c) ds)).
      * destruct (accept_length p (Some c)); lia.
      * by apply NoDup_filter.
      * rewrite Forall_forall in Hl. apply Forall_forall.
        intros d [_ Hd]%list_elem_of_filter. by apply Hl.
      * intros d [Hdc Hd]%list_elem_of_filter.
        destruct (Hds d Hd) as [Hin Hdp]. split.
        -- apply elem_of_cons in Hin as [Heq|Hin]; [congruence|done].
        -- simpl. rewrite decide_True by done.
           intros [?|Hd']%elem_of_app; [done|].
           by apply list_elem_of_singleton in Hd'.
      * simpl. rewrite decide_True by done. rewrite length_app. simpl.
        pose proof (filter_ne_length c ds Hnd). lia.
    + assert (Hacc : accept p poll = p).
      { destruct poll as [c|]; simpl; [|done].
        case_decide as Hc; [|done]. destruct Hno. by exists c. }
      rewrite Hacc. apply (IH p ds); try done.
      intros d Hd. destruct (Hds d Hd) as [Hin Hdp]. split; [|done].
      apply elem_of_cons in Hin as [Heq|Hin]; [|done].
      destruct Hno. exists d. split; [done|]. split; [|done].
      rewrite Forall_forall in Hl. by apply Hl.
Qed.

(** ** What the learning mode does to the rest of the state *)

Lemma LED_not_relay : LED_BUILTIN ∉ RELAY_PINS.
Proof. unfold LED_BUILTIN, RELAY_PINS. rewrite !elem_of_cons, elem_of_nil. lia. Qed.

Lemma signals_only_refl st : signals_only st st.
Proof.
  repeat split. exists []. split; [by rewrite app_nil_r|constructor].
Qed.

Lemma signals_only_trans st1 st2 st3 :
  signals_only st1 st2 → signals_only st2 st3 → signals_only st1 st3.
Proof.
  intros (He1 & Hr1 & Hp1 & evs1 & Ht1 & Hq1) (He2 & Hr2 & Hp2 & evs2 & Ht2 & Hq2).
  split; [congruence|]. split; [congruence|]. split.
  - intros pin Hpin. rewrite Hp2, Hp1; done.
  - exists (evs1 ++ evs2). split.
    + by rewrite Ht2, Ht1, app_assoc.
    + by apply Forall_app.
Qed.

Lemma signals_only_emit ev st st' :
  signal_only ev → signals_only st st' → signals_only st (emit ev st').
Proof.
  intros Hev (He & Hr & Hp & evs & Ht & Hq).
  split; [done|]. split; [done|]. split; [done|].
  exists (evs ++ [ev]). split.
  - simpl. by rewrite Ht, app_assoc.
  - apply Forall_app. split; [done|]. by apply Forall_singleton.
Qed.

Lemma signal_only_led l : signal_only (DigitalWrite LED_BUILTIN l).
Proof. split; simpl; [tauto|apply LED_not_relay]. Qed.

Lemma signals_only_led l st st' :
  signals_only st st' → signals_only st (digitalWrite LED_BUILTIN l st').
Proof.
  intros Hs. unfold digitalWrite.
  apply signals_only_emit; [apply signal_only_led|].
  destruct Hs as (He & Hr & Hp & Ht).
  split; [done|]. split; [done|]. split; [|done].
  intros pin Hpin. simpl. rewrite lookup_insert_ne by done. by apply Hp.
Qed.

Lemma signals_only_delay ms st st' :
  signals_only st st' → signals_only st (delay ms st').
Proof. intros Hs. apply signals_only_emit; [|done]. split; simpl; tauto. Qed.

Lemma signals_only_set_hex_codes v st st' :
  signals_only st st' → signals_only st (set_hex_codes v st').
Proof. intros Hs. exact Hs. Qed.

Lemma signal_only_print s : signal_only (SerialPrint s).
Proof. split; simpl; tauto. Qed.
Lemma signal_only_println s : signal_only (SerialPrintln s).
Proof. split; simpl; tauto. Qed.
Lemma signal_only_num n : signal_only (SerialPrintNum n).
Proof. split; simpl; tauto. Qed.
Lemma signal_only_hex n : signal_only (SerialPrintlnHex n).
Proof. split; simpl; tauto. Qed.
Lemma signal_only_resume : signal_only IrResume.
Proof. split; simpl; tauto. Qed.

Create HintDb signals.
#[export] Hint Resolve signals_only_refl signals_only_emit signals_only_led
  signals_only_delay signals_only_set_hex_codes signal_only_print
  signal_only_println signal_only_num signal_only_hex signal_only_resume
  : signals.

Lemma signals_only_wait_blink st st' :
  signals_only st st' → signals_only st (wait_blink st').
Proof. unfold wait_blink. auto with signals. Qed.

Lemma signals_only_report_duplicate st st' :
  signals_only st st' → signals_only st (report_duplicate st').
Proof.
  unfold report_duplicate. simpl. unfold error_blink. auto 20 with signals.
Qed.

Lemma signals_only_store_code c k st st' :
  signals_only st st' → signals_only st (store_code c k st').
Proof. unfold store_code. auto 20 with signals. Qed.

#[export] Hint Resolve signals_only_wait_blink signals_only_report_duplicate
  signals_only_store_code : signals.

Lemma signals_only_learn c k st st' :
  signals_only st st' → signals_only st (learn c k st').2.
Proof.
  intros Hs. unfold learn.
  destruct (negb (c =? 0) && negb (c =? CONFIG_IR_CODE)); [|done].
  destruct (is_duplicate k 0 c (hex_codes st')); simpl; auto with signals.
Qed.

Lemma signals_only_config_iter poll k st :
  signals_only st (config_iter poll k st).2.
Proof.
  unfold config_iter. destruct poll as [c|]; simpl; [|auto with signals].
  pose proof (signals_only_learn c k st (wait_blink st)) as Hl.
  destruct (learn c k (wait_blink st)) as [k' st']. simpl in *.
  auto with signals.
Qed.

Lemma signals_only_config_loop polls : ∀ k st,
  signals_only st (config_loop polls k st).1.2.
Proof.
  induction polls as [|poll polls IH]; intros k st; simpl.
  - case_decide; apply signals_only_refl.
  - case_decide; [|apply signals_only_refl].
    pose proof (signals_only_config_iter poll k st) as Hi.
    destruct (config_iter poll k st) as [k' st'].
    eapply signals_only_trans; [exact Hi|apply IH].
Qed.

Lemma signals_only_config_entry st : signals_only st (config_entry st).
Proof. unfold config_entry. auto 10 with signals. Qed.

(** ** One iteration, case by case *)

Lemma config_iter_ignored c k st :
  ¬ learnable c →
  config_iter (Some c) k st = (k, emit IrResume (wait_blink st)).
Proof.
  intros Hc. unfold config_iter, learn. rewrite learnable_test.
  by rewrite bool_decide_eq_false_2.
Qed.

Lemma config_iter_duplicate c k st :
  learnable c → is_duplicate k 0 c (hex_codes st) = true →
  config_iter (Some c) k st
  = (k, emit IrResume (report_duplicate (wait_blink st))).
Proof.
  intros Hc Hdup. unfold config_iter, learn. rewrite learnable_test.
  rewrite bool_decide_eq_true_2 by done.
  change (hex_codes (wait_blink st)) with (hex_codes st). by rewrite Hdup.
Qed.

Lemma config_iter_stored c k st :
  learnable c → is_duplicate k 0 c (hex_codes st) = false →
  config_iter (Some c) k st
  = (S k, emit IrResume (store_code c k (wait_blink st))).
Proof.
  intros Hc Hdup. unfold config_iter, learn. rewrite learnable_test.
  rewrite bool_decide_eq_true_2 by done.
  change (hex_codes (wait_blink st)) with (hex_codes st). by rewrite Hdup.
Qed.

Lemma config_loop_snoc polls poll : ∀ k st k1 st1 rest,
  config_loop polls k st = (k1, st1, rest) → (k1 < NUM_RELAYS)%nat →
  config_loop (polls ++ [poll]) k st
  = ((config_iter poll k1 st1).1, (config_iter poll k1 st1).2, []).
Proof.
  induction polls as [|p polls IH]; intros k st k1 st1 rest Hrun Hlt; simpl in *.
  - case_decide.
    + injection Hrun as -> -> <-.
      destruct (config_iter poll k1 st1) as [k2 st2]. simpl.
      by case_decide.
    + injection Hrun as -> -> <-. lia.
  - case_decide.
    + destruct (config_iter p k st) as [k' st']. by eapply IH.
    + injection Hrun as -> -> <-. lia.
Qed.

Lemma trace_wait_blink st :
  trace (wait_blink st)
  = trace st ++ [DigitalWrite LED_BUILTIN (level_not (digitalRead LED_BUILTIN st));
                 Delay 300].
Proof. simpl. by rewrite <- app_assoc. Qed.

Lemma trace_report_duplicate st :
  trace (report_duplicate st) = trace st ++ duplicate_cue.
Proof. simpl. by rewrite <- !app_assoc. Qed.

Lemma trace_emit ev st : trace (emit ev st) = trace st ++ [ev].
Proof. done. Qed.

Lemma trace_store_code c k st :
  trace (store_code c k st)
  = trace st ++ [SerialPrint "Stored code "; SerialPrintNum (Z.of_nat k);
                 SerialPrint ": "; SerialPrintlnHex c;
                 DigitalWrite LED_BUILTIN HIGH; Delay 100;
                 DigitalWrite LED_BUILTIN LOW].
Proof. simpl. by rewrite <- !app_assoc. Qed.

Lemma trace_config_entry st :
  trace (config_entry st)
  = trace st ++ [SerialPrintln "Entering Config Mode";
                 DigitalWrite LED_BUILTIN HIGH; Delay 1000;
                 DigitalWrite LED_BUILTIN LOW].
Proof. simpl. by rewrite <- !app_assoc. Qed.

Lemma trace_config_exit st :
  trace (config_exit st)
  = trace st ++ [EepromPut 0 (hex_codes st);
                 SerialPrintln "Configuration Saved";
                 DigitalWrite LED_BUILTIN HIGH].
Proof. simpl. by rewrite <- !app_assoc. Qed.

Lemma digitalRead_digitalWrite pin l st :
  digitalRead pin (digitalWrite pin l st) = l.
Proof. unfold digitalRead. simpl. by rewrite lookup_insert_eq. Qed.

Lemma digitalRead_emit pin ev st :
  digitalRead pin (emit ev st) = digitalRead pin st.
Proof. done. Qed.

Lemma led_after_store c k st :
  digitalRead LED_BUILTIN (emit IrResume (store_code c k st)) = LOW.
Proof.
  rewrite digitalRead_emit. unfold store_code.
  apply digitalRead_digitalWrite.
Qed.

Lemma led_after_duplicate st :
  digitalRead LED_BUILTIN (emit IrResume (report_duplicate st)) = LOW.
Proof.
  rewrite digitalRead_emit. unfold report_duplicate.
  cbn [seq foldl]. unfold error_blink at 1. unfold delay.
  rewrite digitalRead_emit. apply digitalRead_digitalWrite.
Qed.

Lemma led_after_entry st : digitalRead LED_BUILTIN (config_entry st) = LOW.
Proof.
  unfold config_entry.
  change (digitalRead LED_BUILTIN (digitalWrite LED_BUILTIN LOW
    (delay 1000 (digitalWrite LED_BUILTIN HIGH
      (emit (SerialPrintln "Entering Config Mode") st)))) = LOW).
  apply digitalRead_digitalWrite.
Qed.

Lemma config_loop_cons poll polls k st :
  (k < NUM_RELAYS)%nat →
  config_loop (poll :: polls) k st
  = config_loop polls (config_iter poll k st).1 (config_iter poll k st).2.
Proof.
  intros Hlt. simpl. rewrite decide_True by done.
  by destruct (config_iter poll k st).
Qed.

Lemma config_loop_nil k st : config_loop [] k st = (k, st, []).
Proof. simpl. by case_decide. Qed.


(** ** The buffer while the loop runs *)

Lemma config_loop_placed st polls k st' rest :
  config_loop polls 0 (config_entry st) = (k, st', rest) →
  filled_with (accept_all polls []) k st' ∧
  NoDup (accept_all polls []) ∧ Forall learnable (accept_all polls []).
Proof.
  intros Hrun.
  pose proof (config_loop_filled polls [] 0 _ (config_entry_filled st)) as Hf.
  rewrite Hrun in Hf. split; [exact Hf|]. split.
  - apply accept_all_NoDup. constructor.
  - apply accept_all_learnable. constructor.
Qed.

Lemma filled_with_distinct p k st :
  filled_with p k st → NoDup p → Forall learnable p →
  NoDup (take k (hex_codes st)) ∧
  ∀ (i j : nat) (x : Z), i ≠ j →
    hex_codes st !! i = Some x → hex_codes st !! j = Some x →
    x = 0 ∧ (k ≤ i)%nat ∧ (k ≤ j)%nat.
Proof.
  intros (-> & Hle & Hc) Hnd Hl. rewrite Hc. split.
  - by rewrite take_app_length.
  - assert (Hnz : ∀ (i : nat) x, p !! i = Some x → x ≠ 0).
    { intros i x Hi. rewrite Forall_forall in Hl.
      apply (Hl x). apply list_elem_of_lookup. by exists i. }
    assert (Hz : ∀ (i : nat) x, (length p ≤ i)%nat →
              (p ++ replicate (NUM_RELAYS - length p) 0) !! i = Some x → x = 0).
    { intros i x Hi. rewrite lookup_app_r by done.
      intros [-> _]%lookup_replicate. done. }
    intros i j x Hij Hi Hj.
    destruct (decide (i < length p)%nat) as [Hik|Hik];
      destruct (decide (j < length p)%nat) as [Hjk|Hjk].
    + rewrite lookup_app_l in Hi, Hj by done.
      destruct Hij. by eapply NoDup_lookup.
    + rewrite lookup_app_l in Hi by done.
      destruct (Hnz i x Hi). apply (Hz j); [lia|done].
    + rewrite lookup_app_l in Hj by done.
      destruct (Hnz j x Hj). apply (Hz i); [lia|done].
    + split; [apply (Hz i); [lia|done]|lia].
Qed.

Lemma enterConfigMode_Returned polls st st' rest :
  enterConfigMode polls st = Returned st' rest →
  ∃ st_loop, config_loop polls 0 (config_entry st) = (NUM_RELAYS, st_loop, rest) ∧
             st' = config_exit st_loop.
Proof.
  unfold enterConfigMode.
  destruct (config_loop polls 0 (config_entry st)) as [[k s] r] eqn:Hrun.
  case_decide as Hk; [done|]. intros [= <- <-].
  destruct (config_loop_placed _ _ _ _ _ Hrun) as ((_ & Hle & _) & _).
  exists s. split; [|done]. f_equal. f_equal. lia.
Qed.

(** C8: during Configuring a decoded code that is zero or the Trigger Code
    is ignored.  The iteration that polls it leaves the filled-count and
    the buffer as they were, and all it emits is the cosmetic waiting
    blink of every iteration followed by the resume of the decoder: no
    error cue and no status report. *)
Theorem zero_and_trigger_ignored (c : Z) (codes_stored : nat) (st : state) :
  c = 0 ∨ c = CONFIG_IR_CODE →
  ∃ st', config_iter (Some c) codes_stored st = (codes_stored, st') ∧
    hex_codes st' = hex_codes st ∧
    eeprom st' = eeprom st ∧
    trace st' = trace st ++
      [DigitalWrite LED_BUILTIN (level_not (digitalRead LED_BUILTIN st));
       Delay 300; IrResume].
Proof.
  intros Hc. exists (emit IrResume (wait_blink st)). split.
  - apply config_iter_ignored. unfold learnable. tauto.
  - split; [done|]. split; [done|].
    rewrite trace_emit, trace_wait_blink. by rewrite <- app_assoc.
Qed.

Lemma zero_and_trigger_ignored_witness :
  (CONFIG_IR_CODE = 0 ∨ CONFIG_IR_CODE = CONFIG_IR_CODE) ∧
  ∃ st', config_iter (Some CONFIG_IR_CODE) 2 (config_entry (power_on ∅ ∅))
         = (2%nat, st') ∧
    hex_codes st' = hex_codes (config_entry (power_on ∅ ∅)) ∧
    eeprom st' = eeprom (config_entry (power_on ∅ ∅)) ∧
    trace st' = trace (config_entry (power_on ∅ ∅)) ++
      [DigitalWrite LED_BUILTIN
         (level_not (digitalRead LED_BUILTIN (config_entry (power_on ∅ ∅))));
       Delay 300; IrResume].
Proof.
  split; [right; reflexivity|].
  apply (zero_and_trigger_ignored CONFIG_IR_CODE 2 (config_entry (power_on ∅ ∅))).
  right. reflexivity.
Defined.

(** C1: during Configuring, when a nonzero, non-trigger code [c] is
    submitted again while slots remain (the loop, having polled
    [pre ++ Some c :: mid], is still at count [k1 < NUM_RELAYS]), the second
    submission is turned down: the filled-count and the buffer stay as
    they are and the duplicate-error cue is emitted (the "Duplicate!"
    report and three short blinks).  And whatever the polls, the codes
    placed in the buffer are pairwise distinct: two slots of equal value
    are always two slots not filled yet, holding the zero of the reset. *)
Theorem duplicate_code_rejected (st : state) (pre mid : list (option Z))
    (c : Z) (k1 : nat) (st1 : state) (rest : list (option Z)) :
  c ≠ 0 → c ≠ CONFIG_IR_CODE →
  config_loop (pre ++ Some c :: mid) 0 (config_entry st) = (k1, st1, rest) →
  (k1 < NUM_RELAYS)%nat →
  (∃ st2,
     config_iter (Some c) k1 st1 = (k1, st2) ∧
     config_loop ((pre ++ Some c :: mid) ++ [Some c]) 0 (config_entry st)
       = (k1, st2, []) ∧
     hex_codes st2 = hex_codes st1 ∧
     trace st2 = trace st1 ++
       [DigitalWrite LED_BUILTIN (level_not (digitalRead LED_BUILTIN st1));
        Delay 300] ++ duplicate_cue ++ [IrResume]) ∧
  (∀ polls k st' rest',
     config_loop polls 0 (config_entry st) = (k, st', rest') →
     NoDup (take k (hex_codes st')) ∧
     ∀ (i j : nat) (x : Z), i ≠ j →
       hex_codes st' !! i = Some x → hex_codes st' !! j = Some x →
       x = 0 ∧ (k ≤ i)%nat ∧ (k ≤ j)%nat).
Proof.
  intros Hc0 Hct Hrun Hlt. split.
  - destruct (config_loop_placed _ _ _ _ _ Hrun) as (Hf & _ & _).
    assert (Hl : learnable c) by done.
    assert (Hin : c ∈ accept_all (pre ++ Some c :: mid) []).
    { apply accept_all_submitted; [done|]. destruct Hf as (<- & _). done. }
    assert (Hdup : is_duplicate k1 0 c (hex_codes st1) = true)
      by by apply (is_duplicate_filled _ _ _ _ Hf).
    pose proof (config_iter_duplicate c k1 st1 Hl Hdup) as Hiter.
    exists (emit IrResume (report_duplicate (wait_blink st1))).
    split; [done|]. split.
    + rewrite (config_loop_snoc _ (Some c) _ _ _ _ _ Hrun Hlt).
      by rewrite Hiter.
    + split; [done|].
      rewrite trace_emit, trace_report_duplicate, trace_wait_blink.
      by rewrite <- !app_assoc.
  - intros polls k st' rest' Hrun'.
    destruct (config_loop_placed _ _ _ _ _ Hrun') as (Hf & Hnd & Hl).
    by apply (filled_with_distinct _ _ _ Hf).
Qed.

Lemma duplicate_code_rejected_witness :
  let st1 := (config_loop [Some 0x11; Some 0x22; None; Some 0] 0
                (config_entry (power_on ∅ ∅))).1.2 in
  0x22 ≠ 0 ∧ 0x22 ≠ CONFIG_IR_CODE ∧
  config_loop ([Some 0x11] ++ Some 0x22 :: [None; Some 0]) 0
    (config_entry (power_on ∅ ∅)) = (2%nat, st1, []) ∧
  (2 < NUM_RELAYS)%nat ∧
  (config_iter (Some 0x22) 2 st1).1 = 2%nat.
Proof.
  intros st1.
  assert (H0 : 0x22 ≠ 0) by discriminate.
  assert (Ht : 0x22 ≠ CONFIG_IR_CODE) by discriminate.
  assert (Hlt : (2 < NUM_RELAYS)%nat) by (unfold NUM_RELAYS; simpl; lia).
  assert (Hrun : config_loop ([Some 0x11] ++ Some 0x22 :: [None; Some 0]) 0
                   (config_entry (power_on ∅ ∅)) = (2%nat, st1, []))
    by (vm_compute; reflexivity).
  destruct (duplicate_code_rejected _ _ _ _ _ _ _ H0 Ht Hrun Hlt)
    as [(st2 & Hiter & _) _].
  repeat (split; [assumption|]).
  rewrite Hiter. reflexivity.
Defined.

(** C7: when Configuring completes, the code table is persisted by one
    [EEPROM.put] of the whole buffer, made after the loop was left, and
    what the EEPROM then holds as the table is exactly the buffer at
    completion.  While the loop runs the EEPROM is not written at all:
    whatever polls have been consumed, its cells are those of the entry,
    and no EEPROM write precedes the [EEPROM.put] in the trace of the
    call. *)
Theorem configuring_saves_whole_table (st st' : state)
    (polls rest : list (option Z)) :
  Forall poll_uint32 polls →
  enterConfigMode polls st = Returned st' rest →
  (∃ st_loop evs,
     config_loop polls 0 (config_entry st) = (NUM_RELAYS, st_loop, rest) ∧
     hex_codes st' = hex_codes st_loop ∧
     eeprom st' = EEPROM_put 0 (hex_codes st_loop) (eeprom st) ∧
     EEPROM_get 0 (eeprom st') = hex_codes st_loop ∧
     trace st' = trace st ++ evs ++
       [EepromPut 0 (hex_codes st_loop);
        SerialPrintln "Configuration Saved";
        DigitalWrite LED_BUILTIN HIGH] ∧
     Forall (λ ev, ¬ is_eeprom_write ev) evs) ∧
  (∀ polls0 k s r,
     config_loop polls0 0 (config_entry st) = (k, s, r) →
     eeprom s = eeprom st).
Proof.
  intros Hpolls Hret.
  assert (Hloop : ∀ polls0 k s r,
            config_loop polls0 0 (config_entry st) = (k, s, r) →
            signals_only st s).
  { intros polls0 k s r Hrun.
    eapply signals_only_trans; [apply signals_only_config_entry|].
    pose proof (signals_only_config_loop polls0 0 (config_entry st)) as Hs.
    by rewrite Hrun in Hs. }
  split.
  - destruct (enterConfigMode_Returned _ _ _ _ Hret) as (s & Hrun & ->).
    destruct (Hloop _ _ _ _ Hrun) as (He & _ & _ & evs & Ht & Hq).
    destruct (config_loop_placed _ _ _ _ _ Hrun) as ((Hk & _ & Hc) & _).
    exists s, evs. split; [done|]. split; [done|].
    split; [simpl; by rewrite He|]. split.
    + simpl. apply EEPROM_get_put.
      * rewrite Hc, length_app, length_replicate. lia.
      * rewrite Hc, Nat.sub_diag, app_nil_r.
        apply accept_all_uint32; [done|constructor].
    + split.
      * rewrite trace_config_exit, Ht. by rewrite <- app_assoc.
      * eapply Forall_impl; [exact Hq|]. by intros ev [? _].
  - intros polls0 k s r Hrun. by destruct (Hloop _ _ _ _ Hrun) as (He & _).
Qed.

Lemma configuring_saves_whole_table_witness :
  let st' := final_state (enterConfigMode scenario_polls (power_on ∅ ∅)) in
  Forall poll_uint32 scenario_polls ∧
  enterConfigMode scenario_polls (power_on ∅ ∅) = Returned st' [] ∧
  EEPROM_get 0 (eeprom st') = hex_codes st'.
Proof.
  intros st'.
  assert (Hpolls : Forall poll_uint32 scenario_polls)
    by (repeat constructor; by vm_compute).
  assert (Hret : enterConfigMode scenario_polls (power_on ∅ ∅) = Returned st' [])
    by (vm_compute; reflexivity).
  split; [exact Hpolls|]. split; [exact Hret|].
  destruct (configuring_saves_whole_table _ _ _ _ Hpolls Hret)
    as [(st_loop & evs & _ & Hh & _ & Hg & _) _].
  rewrite Hg. symmetry. exact Hh.
Defined.

(** C2: with four relays and Trigger Code 0xE51A7F80, feeding the decoded
    codes 0x11, 0x22, 0x11, 0x33, 0x44 to Configuring places 0x11, 0x22,
    0x33, 0x44 in this order, reports one duplicate (for the second 0x11,
    between the storing of 0x22 and of 0x33), and leaves the learned-code
    table, in memory and in the EEPROM, equal to [0x11; 0x22; 0x33; 0x44]. *)
Theorem learning_scenario (st : state) :
  NUM_RELAYS = 4%nat ∧ CONFIG_IR_CODE = 0xE51A7F80 ∧
  ∃ st', enterConfigMode scenario_polls st = Returned st' [] ∧
    hex_codes st' = [0x11; 0x22; 0x33; 0x44] ∧
    EEPROM_get 0 (eeprom st') = [0x11; 0x22; 0x33; 0x44] ∧
    trace st' = trace st ++ scenario_events ∧
    length (filter (λ ev, ev = SerialPrintln "Duplicate!") scenario_events)
      = 1%nat.
Proof.
  split; [done|]. split; [done|].
  eexists. split; [|split; [|split; [|split]]].
  - unfold enterConfigMode, scenario_polls.
    rewrite config_loop_cons by (vm_compute; lia).
    rewrite config_iter_stored by (reflexivity || (split; discriminate)).
    cbn [fst snd].
    rewrite config_loop_cons by (vm_compute; lia).
    rewrite config_iter_stored by (reflexivity || (split; discriminate)).
    cbn [fst snd].
    rewrite config_loop_cons by (vm_compute; lia).
    rewrite config_iter_duplicate by (reflexivity || (split; discriminate)).
    cbn [fst snd].
    rewrite config_loop_cons by (vm_compute; lia).
    rewrite config_iter_stored by (reflexivity || (split; discriminate)).
    cbn [fst snd].
    rewrite config_loop_cons by (vm_compute; lia).
    rewrite config_iter_stored by (reflexivity || (split; discriminate)).
    cbn [fst snd].
    rewrite config_loop_nil. cbn [fst snd].
    rewrite decide_False by (vm_compute; lia). reflexivity.
  - reflexivity.
  - apply EEPROM_get_put; [reflexivity|].
    repeat constructor; by vm_compute.
  - rewrite trace_config_exit.
    repeat first
      [ rewrite trace_emit | rewrite trace_store_code | rewrite trace_wait_blink
      | rewrite trace_report_duplicate | rewrite led_after_store
      | rewrite led_after_duplicate | rewrite led_after_entry
      | rewrite trace_config_entry ].
    rewrite <- !app_assoc. reflexivity.
  - by vm_compute.
Qed.

(** ** Normal mode: [toggleRelay] and the table scan *)

Lemma trace_toggleRelay j st :
  trace (toggleRelay j st)
  = trace st ++ toggle_events j (negb (relay_states st !!! j)).
Proof. simpl. by rewrite <- !app_assoc. Qed.

Lemma scan_first n : ∀ (i j : nat) c st,
  (i ≤ j < i + n)%nat → hex_codes st !!! j = c →
  (∀ i' : nat, (i ≤ i' < j)%nat → hex_codes st !!! i' ≠ c) →
  scan n i c st = toggleRelay j st.
Proof.
  induction n as [|n IH]; intros i j c st Hj Hc Hbefore; [lia|].
  simpl. case_decide as Hi.
  - destruct (decide (i = j)) as [->|Hne]; [done|].
    destruct (Hbefore i); [lia|done].
  - apply IH; [|done|].
    + destruct (decide (i = j)) as [->|Hne]; [congruence|lia].
    + intros i' Hi'. apply Hbefore. lia.
Qed.

Lemma first_match_total c j st :
  first_match c j st →
  hex_codes st !!! j = c ∧
  ∀ i' : nat, (0 ≤ i' < j)%nat → hex_codes st !!! i' ≠ c.
Proof.
  intros (Hj & Hc & Hbefore). split.
  - by apply list_lookup_total_correct.
  - intros i' Hi' Heq. apply (Hbefore i'); [lia|].
    rewrite <- Heq. apply list_lookup_lookup_total_lt.
    apply lookup_lt_Some in Hc. lia.
Qed.

Lemma handle_ir_first_match c j polls st :
  c ≠ CONFIG_IR_CODE → first_match c j st → toggled_once c j polls st.
Proof.
  intros Hc Hm.
  destruct (first_match_total c j st Hm) as [Hj Hbefore].
  destruct Hm as (Hlt & _ & _).
  exists (emit IrResume (toggleRelay j
    (emit (SerialPrintlnHex c) (emit (SerialPrint "IR Received: ") st)))).
  split; [|split].
  - unfold handle_ir. rewrite (proj2 (Z.eqb_neq _ _) Hc).
    by rewrite (scan_first NUM_RELAYS 0 j c) by (done || lia).
  - done.
  - rewrite trace_emit, trace_toggleRelay, !trace_emit.
    by rewrite <- !app_assoc.
Qed.

(** C3, as amended: for every code [c] received in Normal mode that is
    not the Trigger Code, if [j] is the lowest slot of the Learned Code
    Table holding [c], then [toggleRelay(j)] is performed exactly once, the
    scan stopping there, and the logical state of every other channel is
    unchanged. *)
Theorem first_match_toggles (c : Z) (j : nat) (polls : list (option Z))
    (st : state) :
  c ≠ CONFIG_IR_CODE → first_match c j st →
  toggled_once c j polls st ∧
  ∀ i : nat, i ≠ j →
    relay_states (final_state (handle_ir c polls st)) !! i
    = relay_states st !! i.
Proof.
  intros Hc Hm.
  pose proof (handle_ir_first_match c j polls st Hc Hm) as Ht.
  split; [exact Ht|]. destruct Ht as (st' & Hret & Hrs & _).
  intros i Hi. rewrite Hret. simpl. rewrite Hrs.
  by rewrite list_lookup_insert_ne.
Qed.

Lemma lowest_slot (c : Z) (l : list Z) : ∀ i : nat,
  l !! i = Some c →
  ∃ j : nat, (j ≤ i)%nat ∧ l !! j = Some c ∧
             ∀ i' : nat, (i' < j)%nat → l !! i' ≠ Some c.
Proof.
  induction l as [|x l IH]; intros i Hi; [done|].
  destruct (decide (x = c)) as [->|Hx].
  - exists 0%nat. split; [lia|]. split; [done|]. intros i' Hi'. lia.
  - destruct i as [|i]; [by injection Hi|].
    destruct (IH i Hi) as (j & Hj & Hc & Hmin).
    exists (S j). split; [lia|]. split; [done|].
    intros [|i'] Hi'; simpl; [congruence|]. apply Hmin. lia.
Qed.

(** C10: in Normal mode the code 0 is dispatched like any other code.
    If some slot of the Learned Code Table holds 0, the "unprogrammed"
    value, receiving 0 toggles the channel of the lowest such slot. *)
Theorem zero_code_toggles_blank_slot (polls : list (option Z)) (st : state) :
  (∃ i : nat, (i < NUM_RELAYS)%nat ∧ hex_codes st !! i = Some 0) →
  ∃ j : nat, first_match 0 j st ∧ toggled_once 0 j polls st.
Proof.
  intros (i & Hi & Hz).
  destruct (lowest_slot 0 (hex_codes st) i Hz) as (j & Hj & Hc & Hmin).
  assert (Hm : first_match 0 j st) by (split; [lia|done]).
  exists j. split; [exact Hm|].
  by apply handle_ir_first_match.
Qed.

(** ** [toggleRelay] twice *)

Lemma relay_states_toggleRelay i st :
  relay_states (toggleRelay i st)
  = <[i := negb (relay_states st !!! i)]> (relay_states st).
Proof. done. Qed.

Lemma eeprom_toggleRelay i st :
  eeprom (toggleRelay i st)
  = EEPROM_update (RELAY_STATE_ADDR + Z.of_nat i)
      (if negb (relay_states st !!! i) then 1 else 0) (eeprom st).
Proof. done. Qed.

Lemma pins_toggleRelay i st :
  pins (toggleRelay i st)
  = <[RELAY_PINS !!! i := relay_level (negb (relay_states st !!! i))]> (pins st).
Proof. done. Qed.

Lemma EEPROM_update_twice a b b' e a' :
  EEPROM_read a e = b →
  EEPROM_read a' (EEPROM_update a b (EEPROM_update a b' e)) = EEPROM_read a' e.
Proof.
  intros Hb. destruct (decide (a = a')) as [<-|Hne].
  - by rewrite EEPROM_read_update_eq.
  - by rewrite !EEPROM_read_update_ne.
Qed.

Lemma toggle_twice_states (i : nat) (on : bool) (st : state) :
  relay_states st !! i = Some on →
  relay_states (toggleRelay i st) !!! i = negb on ∧
  relay_states (toggleRelay i (toggleRelay i st)) = relay_states st.
Proof.
  intros Hon.
  pose proof (lookup_lt_Some _ _ _ Hon) as Hlen.
  assert (Hon' : relay_states st !!! i = on)
    by by apply list_lookup_total_correct.
  assert (Hback : relay_states (toggleRelay i st) !!! i = negb on).
  { rewrite relay_states_toggleRelay, list_lookup_total_insert_eq by done.
    by rewrite Hon'. }
  split; [exact Hback|].
  rewrite relay_states_toggleRelay, Hback, negb_involutive.
  rewrite relay_states_toggleRelay, list_insert_insert_eq.
  by apply list_insert_id.
Qed.

Lemma toggle_twice_byte (i : nat) (on : bool) (st : state) :
  relay_states st !! i = Some on →
  state_byte i (toggleRelay i (toggleRelay i st)) = (if on then 1 else 0).
Proof.
  intros Hon. destruct (toggle_twice_states i on st Hon) as [Hback _].
  unfold state_byte. rewrite eeprom_toggleRelay, Hback, negb_involutive.
  apply EEPROM_read_update_eq.
Qed.

(** C5, as amended: for every channel [i] below [NUM_RELAYS], two
    [toggleRelay(i)] in succession restore the logical state of the
    channel, and leave its persisted state byte at the encoding of that
    state, 1 for on and 0 for off.  When the byte held this encoding
    before, every cell of the EEPROM reads as it did before. *)
Theorem double_toggle (i : nat) (on : bool) (st : state) :
  (i < NUM_RELAYS)%nat → relay_states st !! i = Some on →
  relay_states (toggleRelay i (toggleRelay i st)) = relay_states st ∧
  state_byte i (toggleRelay i (toggleRelay i st)) = (if on then 1 else 0) ∧
  (state_byte i st = (if on then 1 else 0) →
   ∀ a, EEPROM_read a (eeprom (toggleRelay i (toggleRelay i st)))
        = EEPROM_read a (eeprom st)).
Proof.
  intros Hi Hon.
  destruct (toggle_twice_states i on st Hon) as [Hback Hrs].
  split; [exact Hrs|]. split; [by apply toggle_twice_byte|].
  intros Hbyte a. rewrite eeprom_toggleRelay, Hback, negb_involutive.
  rewrite eeprom_toggleRelay. by apply EEPROM_update_twice.
Qed.

(** ** The learning mode and the relays *)

Lemma relay_pin_not_led (i : nat) :
  (i < NUM_RELAYS)%nat → RELAY_PINS !!! i ≠ LED_BUILTIN.
Proof.
  intros Hi Heq. apply LED_not_relay. rewrite <- Heq.
  by apply list_elem_of_lookup_total_2.
Qed.

Lemma relay_pins_distinct (i j : nat) :
  (i < NUM_RELAYS)%nat → (j < NUM_RELAYS)%nat → i ≠ j →
  RELAY_PINS !!! i ≠ RELAY_PINS !!! j.
Proof.
  intros Hi Hj Hij Heq.
  assert (Hnd : NoDup RELAY_PINS) by (apply (bool_decide_unpack _); by vm_compute).
  apply Hij. eapply NoDup_lookup; [exact Hnd| |].
  - by apply list_lookup_lookup_total_lt.
  - rewrite Heq. by apply list_lookup_lookup_total_lt.
Qed.

Lemma enterConfigMode_frame polls st :
  relays_untouched st (final_state (enterConfigMode polls st)) ∧
  ∃ evs, trace (final_state (enterConfigMode polls st))
         = trace st ++ entry_cue ++ evs ∧
         Forall (λ ev, ¬ is_relay_action ev) evs.
Proof.
  unfold enterConfigMode.
  destruct (config_loop polls 0 (config_entry st)) as [[k s] r] eqn:Hrun.
  pose proof (signals_only_config_loop polls 0 (config_entry st)) as Hloop.
  rewrite Hrun in Hloop. simpl in Hloop.
  pose proof (signals_only_trans _ _ _ (signals_only_config_entry st) Hloop)
    as (He & Hr & Hp & _).
  destruct Hloop as (_ & _ & _ & evs & Ht & Hq).
  assert (Hq' : Forall (λ ev, ¬ is_relay_action ev) evs)
    by (eapply Forall_impl; [exact Hq|]; by intros ev [_ ?]).
  rewrite trace_config_entry in Ht.
  case_decide as Hk; simpl final_state.
  - split.
    + split; [done|]. split; [done|]. intros a _. by rewrite He.
    + exists evs. split; [by rewrite Ht, <- app_assoc|done].
  - destruct (config_loop_placed _ _ _ _ _ Hrun) as ((Hlen & Hle & Hc) & _).
    split.
    + split; [done|]. split.
      * intros pin Hpin. simpl. rewrite lookup_insert_ne by done. by apply Hp.
      * intros a Ha. simpl. rewrite EEPROM_put_lookup_out; [by rewrite He|].
        rewrite Hc, length_app, length_replicate.
        replace (length (accept_all polls []) + (NUM_RELAYS - k))%nat
          with NUM_RELAYS by lia.
        done.
    + exists (evs ++ [EepromPut 0 (hex_codes s);
                      SerialPrintln "Configuration Saved";
                      DigitalWrite LED_BUILTIN HIGH]).
      split.
      * rewrite trace_config_exit, Ht. by rewrite <- !app_assoc.
      * apply Forall_app. split; [done|].
        repeat constructor; simpl; try tauto. apply LED_not_relay.
Qed.

Lemma handle_ir_trigger polls st :
  handle_ir CONFIG_IR_CODE polls st
  = match enterConfigMode polls (trigger_reported st) with
    | Returned s rest => Returned (emit IrResume s) rest
    | Pending s => Pending s
    end.
Proof. unfold handle_ir. by rewrite Z.eqb_refl. Qed.

Lemma handle_ir_trigger_frame polls st :
  relays_untouched st (final_state (handle_ir CONFIG_IR_CODE polls st)) ∧
  ∃ evs, trace (final_state (handle_ir CONFIG_IR_CODE polls st))
         = trace st ++
           [SerialPrint "IR Received: "; SerialPrintlnHex CONFIG_IR_CODE;
            SerialPrintln "IR Config Trigger"] ++ entry_cue ++ evs ∧
         Forall (λ ev, ¬ is_relay_action ev) evs.
Proof.
  rewrite handle_ir_trigger.
  destruct (enterConfigMode_frame polls (trigger_reported st))
    as ((Hr & Hp & He) & evs & Ht & Hq).
  destruct (enterConfigMode polls (trigger_reported st)) as [s rest|s];
    simpl final_state in *.
  - split; [by split|].
    exists (evs ++ [IrResume]). split.
    + rewrite trace_emit, Ht. unfold trigger_reported.
      rewrite !trace_emit. by rewrite <- !app_assoc.
    + apply Forall_app. split; [done|]. repeat constructor. simpl. tauto.
  - split; [by split|].
    exists evs. split; [|done].
    rewrite Ht. unfold trigger_reported.
    rewrite !trace_emit. by rewrite <- !app_assoc.
Qed.

(** C4: a decoded code equal to the Trigger Code, received in Normal
    mode, makes the sketch enter Configuring, whatever the Learned Code
    Table holds: the outcome is that of [enterConfigMode] (followed by
    the resume of the decoder once it returns), it is the same for every
    content of the table, and it toggles no relay: the relay states, the
    relay lines and the state bytes are left as they were, and after the
    report of the code the events are the entry cue of the learning mode
    followed by events none of which acts on a relay. *)
Theorem trigger_enters_config (polls : list (option Z)) (st : state) :
  handle_ir CONFIG_IR_CODE polls st
  = match enterConfigMode polls (trigger_reported st) with
    | Returned s rest => Returned (emit IrResume s) rest
    | Pending s => Pending s
    end ∧
  (∀ table, handle_ir CONFIG_IR_CODE polls (set_hex_codes table st)
            = handle_ir CONFIG_IR_CODE polls st) ∧
  relays_untouched st (final_state (handle_ir CONFIG_IR_CODE polls st)) ∧
  ∃ evs, trace (final_state (handle_ir CONFIG_IR_CODE polls st))
         = trace st ++
           [SerialPrint "IR Received: "; SerialPrintlnHex CONFIG_IR_CODE;
            SerialPrintln "IR Config Trigger"] ++ entry_cue ++ evs ∧
         Forall (λ ev, ¬ is_relay_action ev) evs.
Proof.
  split; [apply handle_ir_trigger|]. split; [|apply handle_ir_trigger_frame].
  intros table. rewrite !handle_ir_trigger.
  unfold enterConfigMode, trigger_reported.
  change (config_entry (emit (SerialPrintln "IR Config Trigger")
            (emit (SerialPrintlnHex CONFIG_IR_CODE)
               (emit (SerialPrint "IR Received: ") (set_hex_codes table st)))))
    with (config_entry (emit (SerialPrintln "IR Config Trigger")
            (emit (SerialPrintlnHex CONFIG_IR_CODE)
               (emit (SerialPrint "IR Received: ") st)))).
  done.
Qed.

(** ** The relays from boot on *)

Lemma relay_inv_untouched st st' :
  relays_untouched st st' → relay_inv st → relay_inv st'.
Proof.
  intros (Hr & Hp & He) (Hlen & Hlow & Hsync). split; [|split].
  - by rewrite Hr.
  - intros i Hi. rewrite Hr, Hp; [by apply Hlow|by apply relay_pin_not_led].
  - intros i Hi. rewrite Hr. unfold state_byte, EEPROM_read.
    rewrite He; [by apply Hsync|].
    unfold RELAY_STATE_ADDR, NUM_RELAYS. simpl. lia.
Qed.

Lemma relay_inv_emit ev st : relay_inv st → relay_inv (emit ev st).
Proof. intros H. exact H. Qed.

Lemma relay_inv_toggleRelay j st :
  (j < NUM_RELAYS)%nat → relay_inv st → relay_inv (toggleRelay j st).
Proof.
  intros Hj (Hlen & Hlow & Hsync). split; [|split].
  - rewrite relay_states_toggleRelay. by rewrite length_insert.
  - intros i Hi. rewrite pins_toggleRelay, relay_states_toggleRelay.
    destruct (decide (i = j)) as [->|Hij].
    + rewrite lookup_insert_eq.
      by rewrite list_lookup_total_insert_eq by lia.
    + rewrite lookup_insert_ne by (apply relay_pins_distinct; done).
      rewrite list_lookup_total_insert_ne by done. by apply Hlow.
  - intros i Hi. unfold state_byte.
    rewrite eeprom_toggleRelay, relay_states_toggleRelay.
    destruct (decide (i = j)) as [->|Hij].
    + rewrite list_lookup_insert_eq by lia.
      rewrite EEPROM_read_update_eq.
      by destruct (negb (relay_states st !!! j)).
    + rewrite list_lookup_insert_ne by done.
      rewrite EEPROM_read_update_ne by lia. by apply Hsync.
Qed.

Lemma relay_inv_scan n : ∀ i c st,
  (i + n ≤ NUM_RELAYS)%nat → relay_inv st → relay_inv (scan n i c st).
Proof.
  induction n as [|n IH]; intros i c st Hn Hinv; simpl; [done|].
  case_decide.
  - apply relay_inv_toggleRelay; [lia|done].
  - apply IH; [lia|done].
Qed.

Lemma relay_inv_enterConfigMode polls st :
  relay_inv st → relay_inv (final_state (enterConfigMode polls st)).
Proof.
  apply relay_inv_untouched. apply enterConfigMode_frame.
Qed.

Lemma relay_inv_handle_ir c polls st :
  relay_inv st → relay_inv (final_state (handle_ir c polls st)).
Proof.
  intros Hinv. unfold handle_ir.
  destruct (c =? CONFIG_IR_CODE).
  - pose proof (relay_inv_enterConfigMode polls
      (emit (SerialPrintln "IR Config Trigger")
         (emit (SerialPrintlnHex c) (emit (SerialPrint "IR Received: ") st)))
      Hinv) as Hc.
    by destruct (enterConfigMode _ _).
  - cbn [final_state]. apply relay_inv_emit.
    apply (relay_inv_scan NUM_RELAYS 0); [lia|exact Hinv].
Qed.

Lemma relay_inv_check_button b polls st :
  relay_inv st → relay_inv (final_state (check_button b polls st)).
Proof.
  intros Hinv. unfold check_button.
  destruct (first_read b); [|done].
  destruct (second_read b); [|done].
  by apply relay_inv_enterConfigMode.
Qed.

Lemma relay_inv_loop b polls st :
  relay_inv st → relay_inv (final_state (loop b polls st)).
Proof.
  intros Hinv. unfold loop.
  pose proof (relay_inv_check_button b polls st Hinv) as Hb.
  destruct (check_button b polls st) as [s rest|s]; [|done].
  destruct rest as [|[c|] rest]; [done| |done].
  by apply relay_inv_handle_ir.
Qed.

Lemma relay_inv_run bs : ∀ polls st,
  relay_inv st → relay_inv (final_state (run bs polls st)).
Proof.
  induction bs as [|b bs IH]; intros polls st Hinv; simpl; [done|].
  pose proof (relay_inv_loop b polls st Hinv) as Hl.
  destruct (loop b polls st) as [s rest|s]; [by apply IH|done].
Qed.

(** The first loop of [setup], after [n] rounds. *)
Lemma setup_relay_rounds st n :
  length (relay_states st) = NUM_RELAYS → (n ≤ NUM_RELAYS)%nat →
  eeprom (foldl setup_relay st (seq 0 n)) = eeprom st ∧
  length (relay_states (foldl setup_relay st (seq 0 n))) = NUM_RELAYS ∧
  ∀ i : nat, (i < n)%nat →
    pins (foldl setup_relay st (seq 0 n)) !! (RELAY_PINS !!! i)
    = Some (relay_level (relay_states (foldl setup_relay st (seq 0 n)) !!! i)) ∧
    relay_states (foldl setup_relay st (seq 0 n)) !! i
    = Some (negb (state_byte i st =? 0)).
Proof.
  intros Hlen. induction n as [|n IH]; intros Hn.
  - split; [done|]. split; [done|]. intros i Hi. lia.
  - rewrite seq_S, foldl_snoc. simpl "+".
    destruct IH as (He & Hl & Hi); [lia|].
    set (s := foldl setup_relay st (seq 0 n)) in *.
    split; [exact He|]. split; [simpl; by rewrite length_insert|].
    intros i Hlt. simpl. rewrite He.
    destruct (decide (i = n)) as [->|Hne].
    + rewrite lookup_insert_eq, list_lookup_insert_eq by lia.
      by rewrite list_lookup_total_insert_eq by lia.
    + rewrite lookup_insert_ne by (apply relay_pins_distinct; lia).
      rewrite list_lookup_insert_ne, list_lookup_total_insert_ne by done.
      apply Hi. lia.
Qed.

Lemma setup_relays_inv st :
  length (relay_states st) = NUM_RELAYS →
  eeprom (setup_relays st) = eeprom st ∧
  length (relay_states (setup_relays st)) = NUM_RELAYS ∧
  ∀ i : nat, (i < NUM_RELAYS)%nat →
    pins (setup_relays st) !! (RELAY_PINS !!! i)
    = Some (relay_level (relay_states (setup_relays st) !!! i)) ∧
    relay_states (setup_relays st) !! i = Some (negb (state_byte i st =? 0)).
Proof. intros Hlen. by apply setup_relay_rounds. Qed.

Lemma setup_report_rounds l : ∀ st,
  relay_states (foldl setup_report st l) = relay_states st ∧
  pins (foldl setup_report st l) = pins st ∧
  eeprom (foldl setup_report st l) = eeprom st ∧
  hex_codes (foldl setup_report st l) = hex_codes st.
Proof.
  induction l as [|i l IH]; intros st; simpl; [done|].
  destruct (IH (setup_report st i)) as (-> & -> & -> & ->). done.
Qed.

Lemma setup_reports_frame st :
  relay_states (setup_reports st) = relay_states st ∧
  pins (setup_reports st) = pins st ∧
  eeprom (setup_reports st) = eeprom st ∧
  hex_codes (setup_reports st) = hex_codes st.
Proof. apply setup_report_rounds. Qed.

Lemma setup_begin_length e p :
  length (relay_states (setup_begin (power_on e p))) = NUM_RELAYS.
Proof. done. Qed.

Lemma eeprom_set_hex_codes v st : eeprom (set_hex_codes v st) = eeprom st.
Proof. done. Qed.

Lemma relay_states_set_hex_codes v st :
  relay_states (set_hex_codes v st) = relay_states st.
Proof. done. Qed.

Lemma pins_set_hex_codes v st : pins (set_hex_codes v st) = pins st.
Proof. done. Qed.

Lemma hex_codes_set_hex_codes v st : hex_codes (set_hex_codes v st) = v.
Proof. done. Qed.

Lemma eeprom_setup_begin e p : eeprom (setup_begin (power_on e p)) = e.
Proof. done. Qed.

Lemma eeprom_setup e p : eeprom (setup (power_on e p)) = e.
Proof.
  unfold setup. cbv zeta.
  rewrite (proj1 (proj2 (proj2 (setup_reports_frame _)))).
  rewrite eeprom_set_hex_codes.
  rewrite (proj1 (setup_relays_inv _ (setup_begin_length e p))).
  apply eeprom_setup_begin.
Qed.

Lemma hex_codes_setup e p : hex_codes (setup (power_on e p)) = EEPROM_get 0 e.
Proof.
  unfold setup. cbv zeta.
  rewrite (proj2 (proj2 (proj2 (setup_reports_frame _)))).
  rewrite hex_codes_set_hex_codes.
  rewrite (proj1 (setup_relays_inv _ (setup_begin_length e p))).
  by rewrite eeprom_setup_begin.
Qed.

Lemma relay_inv_setup e p : relay_inv (setup (power_on e p)).
Proof.
  destruct (setup_relays_inv _ (setup_begin_length e p)) as (He & Hl & Hi).
  rewrite eeprom_setup_begin in He.
  assert (Hr : relay_states (setup (power_on e p))
               = relay_states (setup_relays (setup_begin (power_on e p)))).
  { unfold setup. cbv zeta.
    rewrite (proj1 (setup_reports_frame _)).
    apply relay_states_set_hex_codes. }
  assert (Hp : pins (setup (power_on e p))
               = pins (setup_relays (setup_begin (power_on e p)))).
  { unfold setup. cbv zeta.
    rewrite (proj1 (proj2 (setup_reports_frame _))).
    apply pins_set_hex_codes. }
  split; [|split].
  - rewrite Hr. exact Hl.
  - intros i Hlt. rewrite Hr, Hp. by apply Hi.
  - intros i Hlt. rewrite Hr. unfold state_byte. rewrite eeprom_setup.
    destruct (Hi i Hlt) as [_ Hs]. rewrite Hs. unfold state_byte.
    by rewrite eeprom_setup_begin.
Qed.

Lemma relay_inv_sketch e p bs polls :
  relay_inv (final_state (sketch e p bs polls)).
Proof. unfold sketch. apply relay_inv_run, relay_inv_setup. Qed.

Ltac relay_index := unfold NUM_RELAYS, RELAY_PINS; simpl; lia.

Lemma boot_states st (b0 b1 b2 b3 : Z) :
  relay_inv st →
  state_byte 0 st = b0 → state_byte 1 st = b1 →
  state_byte 2 st = b2 → state_byte 3 st = b3 →
  relay_states st
  = [negb (b0 =? 0); negb (b1 =? 0); negb (b2 =? 0); negb (b3 =? 0)].
Proof.
  intros (Hlen & _ & Hsync) <- <- <- <-.
  pose proof (Hsync 0%nat ltac:(relay_index)) as H0.
  pose proof (Hsync 1%nat ltac:(relay_index)) as H1.
  pose proof (Hsync 2%nat ltac:(relay_index)) as H2.
  pose proof (Hsync 3%nat ltac:(relay_index)) as H3.
  destruct (relay_states st) as [|r0 [|r1 [|r2 [|r3 [|]]]]]; try discriminate.
  simpl in H0, H1, H2, H3. congruence.
Qed.

(** C9: at startup, when the persisted state bytes read 1, 0, 1, 0, the
    lines of channels 0 and 2 are driven to the active level (LOW) and
    those of channels 1 and 3 to the inactive level (HIGH); and at every
    point the sketch can reach, after [setup] and any number of passes
    of [loop], whether it then sits in Normal mode or inside the learning
    loop, each relay line is at the logical inverse of the boolean state
    of its channel. *)
Theorem relay_lines_active_low (e : gmap Z Z) (p : gmap Z level)
    (bs : list button) (polls : list (option Z)) :
  (EEPROM_read 16 e = 1 → EEPROM_read 17 e = 0 →
   EEPROM_read 18 e = 1 → EEPROM_read 19 e = 0 →
   relay_states (setup (power_on e p)) = [true; false; true; false] ∧
   pins (setup (power_on e p)) !! 8 = Some LOW ∧
   pins (setup (power_on e p)) !! 9 = Some HIGH ∧
   pins (setup (power_on e p)) !! 10 = Some LOW ∧
   pins (setup (power_on e p)) !! 11 = Some HIGH) ∧
  active_low (final_state (sketch e p bs polls)).
Proof.
  split; [|apply relay_inv_sketch].
  intros Hb0 Hb1 Hb2 Hb3.
  pose proof (relay_inv_setup e p) as Hinv.
  pose proof (eeprom_setup e p) as He.
  generalize dependent (setup (power_on e p)). intros st Hinv He.
  assert (Hrs : relay_states st = [true; false; true; false]).
  { rewrite (boot_states st 1 0 1 0 Hinv); [done|..];
      unfold state_byte; rewrite He; assumption. }
  destruct Hinv as (_ & Hlow & _).
  split; [exact Hrs|].
  pose proof (Hlow 0%nat ltac:(relay_index)) as H0.
  pose proof (Hlow 1%nat ltac:(relay_index)) as H1.
  pose proof (Hlow 2%nat ltac:(relay_index)) as H2.
  pose proof (Hlow 3%nat ltac:(relay_index)) as H3.
  rewrite Hrs in H0, H1, H2, H3. done.
Qed.

(** ** Boot scenarios *)

Lemma boot_table codes p :
  length codes = NUM_RELAYS → Forall is_uint32 codes →
  hex_codes (setup (power_on (EEPROM_put 0 codes ∅) p)) = codes.
Proof. intros Hlen Hall. rewrite hex_codes_setup. by apply EEPROM_get_put. Qed.

Lemma boot_relay_state e p (i : nat) :
  (i < NUM_RELAYS)%nat →
  state_byte i (setup (power_on e p))
  = EEPROM_read (RELAY_STATE_ADDR + Z.of_nat i) e ∧
  relay_states (setup (power_on e p)) !! i
  = Some (negb (EEPROM_read (RELAY_STATE_ADDR + Z.of_nat i) e =? 0)).
Proof.
  intros Hi. destruct (relay_inv_setup e p) as (_ & _ & Hsync).
  rewrite (Hsync i Hi). unfold state_byte. by rewrite eeprom_setup.
Qed.

(** Above a freshly put code table the cells are still erased. *)
Lemma erased_above_table codes a :
  length codes = NUM_RELAYS → 16 ≤ a →
  EEPROM_read a (EEPROM_put 0 codes ∅) = 255.
Proof.
  intros Hlen Ha. unfold EEPROM_read.
  rewrite EEPROM_put_lookup_out.
  - by rewrite lookup_empty.
  - rewrite Hlen. unfold NUM_RELAYS. simpl. lia.
Qed.

Lemma insert_flips (rs : list bool) (j : nat) :
  (j < length rs)%nat → <[j := negb (rs !!! j)]> rs ≠ rs.
Proof.
  intros Hj Heq.
  assert (Hl : rs !! j = Some (negb (rs !!! j))).
  { rewrite <- Heq at 1. by apply list_lookup_insert_eq. }
  apply list_lookup_total_correct in Hl.
  by destruct (rs !!! j).
Qed.

Ltac uint32_list := repeat constructor; unfold is_uint32; by vm_compute.

Lemma first_match_toggles_witness :
  let st := setup (power_on blank_slots_eeprom ∅) in
  0x22 ≠ CONFIG_IR_CODE ∧ first_match 0x22 2 st ∧
  relay_states (final_state (handle_ir 0x22 [] st)) !! 1%nat
  = relay_states st !! 1%nat.
Proof.
  intros st.
  assert (Hh : hex_codes st = [0x11; 0; 0x22; 0])
    by (subst st; unfold blank_slots_eeprom; apply boot_table;
        [reflexivity|uint32_list]).
  clearbody st.
  assert (Hc : 0x22 ≠ CONFIG_IR_CODE) by discriminate.
  assert (Hm : first_match 0x22 2 st).
  { split; [relay_index|]. rewrite Hh. split; [reflexivity|].
    intros i Hi. destruct i as [|[|i]]; [discriminate..|lia]. }
  split; [exact Hc|]. split; [exact Hm|].
  apply (proj2 (first_match_toggles 0x22 2 [] st Hc Hm)). discriminate.
Defined.

(** C3 as stated fails: when the table loaded at boot holds the Trigger
    Code in slot 0 and the Trigger Code is received, slot 0 is the first
    match, yet channel 0 is not toggled: the learning mode is entered and
    all four channels are on as before. *)
Lemma trigger_in_table_not_toggled :
  let st := setup (power_on trigger_eeprom ∅) in
  first_match CONFIG_IR_CODE 0 st ∧
  relay_states st = [true; true; true; true] ∧
  relay_states (final_state (handle_ir CONFIG_IR_CODE scenario_polls st))
  = [true; true; true; true] ∧
  ¬ toggled_once CONFIG_IR_CODE 0 scenario_polls st.
Proof.
  intros st.
  assert (Hh : hex_codes st = [CONFIG_IR_CODE; 0x11; 0x22; 0x33])
    by (subst st; unfold trigger_eeprom; apply boot_table;
        [reflexivity|uint32_list]).
  assert (Hrs : relay_states st = [true; true; true; true]).
  { subst st.
    apply (boot_states _ 255 255 255 255 (relay_inv_setup _ _));
      (etrans; [apply boot_relay_state; relay_index|]);
      unfold trigger_eeprom; by apply erased_above_table. }
  clearbody st.
  destruct (handle_ir_trigger_frame scenario_polls st) as ((Hfr & _) & _).
  split.
  { split; [relay_index|]. rewrite Hh. split; [reflexivity|].
    intros i Hi. lia. }
  split; [exact Hrs|]. split; [by rewrite Hfr|].
  intros (st' & Hret & Hst' & _).
  rewrite Hret in Hfr. simpl final_state in Hfr. rewrite Hfr in Hst'.
  symmetry in Hst'. revert Hst'. apply insert_flips.
  rewrite Hrs. simpl. lia.
Qed.

Lemma zero_code_toggles_blank_slot_witness :
  let st := setup (power_on blank_slots_eeprom ∅) in
  (∃ i : nat, (i < NUM_RELAYS)%nat ∧ hex_codes st !! i = Some 0) ∧
  ∃ j : nat, first_match 0 j st ∧ toggled_once 0 j [] st.
Proof.
  intros st.
  assert (Hh : hex_codes st = [0x11; 0; 0x22; 0])
    by (subst st; unfold blank_slots_eeprom; apply boot_table;
        [reflexivity|uint32_list]).
  clearbody st.
  assert (Hz : ∃ i : nat, (i < NUM_RELAYS)%nat ∧ hex_codes st !! i = Some 0).
  { exists 3%nat. split; [relay_index|]. by rewrite Hh. }
  split; [exact Hz|].
  exact (zero_code_toggles_blank_slot [] st Hz).
Defined.

Lemma double_toggle_witness :
  let st := setup (power_on (<[17 := 1]> ∅) ∅) in
  (1 < NUM_RELAYS)%nat ∧ relay_states st !! 1%nat = Some true ∧
  relay_states (toggleRelay 1 (toggleRelay 1 st)) = relay_states st ∧
  state_byte 1 (toggleRelay 1 (toggleRelay 1 st)) = 1.
Proof.
  intros st.
  assert (Hi : (1 < NUM_RELAYS)%nat) by relay_index.
  assert (Hon : relay_states st !! 1%nat = Some true).
  { subst st. rewrite (proj2 (boot_relay_state _ _ 1 Hi)).
    unfold EEPROM_read. change (RELAY_STATE_ADDR + Z.of_nat 1) with 17.
    by rewrite lookup_insert_eq. }
  clearbody st.
  split; [exact Hi|]. split; [exact Hon|].
  destruct (double_toggle 1 true st Hi Hon) as (Hrs & Hb & _).
  split; [exact Hrs|exact Hb].
Defined.

(** C5 as stated fails: after a boot from an erased EEPROM, whose cells
    read 0xFF, channel 0 is on; two toggles leave it on, but its state
    byte is then 1 and no longer 0xFF. *)
Lemma double_toggle_changes_erased_byte :
  let st := setup (power_on ∅ ∅) in
  relay_states st !! 0%nat = Some true ∧
  relay_states (toggleRelay 0 (toggleRelay 0 st)) = relay_states st ∧
  state_byte 0 st = 255 ∧
  state_byte 0 (toggleRelay 0 (toggleRelay 0 st)) = 1 ∧
  state_byte 0 (toggleRelay 0 (toggleRelay 0 st)) ≠ state_byte 0 st.
Proof.
  intros st.
  assert (Hi : (0 < NUM_RELAYS)%nat) by relay_index.
  assert (Hb : state_byte 0 st = 255).
  { subst st. rewrite (proj1 (boot_relay_state _ _ 0 Hi)).
    unfold EEPROM_read. by rewrite lookup_empty. }
  assert (Hon : relay_states st !! 0%nat = Some true).
  { subst st. rewrite (proj2 (boot_relay_state _ _ 0 Hi)).
    unfold EEPROM_read. by rewrite lookup_empty. }
  clearbody st.
  destruct (toggle_twice_states 0 true st Hon) as [_ Hrs].
  pose proof (toggle_twice_byte 0 true st Hon) as Hb2.
  split; [exact Hon|]. split; [exact Hrs|]. split; [exact Hb|].
  split; [exact Hb2|]. rewrite Hb2, Hb. discriminate.
Qed.

Lemma relay_lines_active_low_witness :
  let e : gmap Z Z := <[16 := 1]> (<[17 := 0]> (<[18 := 1]> (<[19 := 0]> ∅))) in
  EEPROM_read 16 e = 1 ∧ EEPROM_read 17 e = 0 ∧
  EEPROM_read 18 e = 1 ∧ EEPROM_read 19 e = 0 ∧
  relay_states (setup (power_on e ∅)) = [true; false; true; false] ∧
  pins (setup (power_on e ∅)) !! 8 = Some LOW ∧
  pins (setup (power_on e ∅)) !! 9 = Some HIGH ∧
  pins (setup (power_on e ∅)) !! 10 = Some LOW ∧
  pins (setup (power_on e ∅)) !! 11 = Some HIGH.
Proof.
  intros e.
  assert (H0 : EEPROM_read 16 e = 1)
    by (subst e; unfold EEPROM_read; by simplify_map_eq).
  assert (H1 : EEPROM_read 17 e = 0)
    by (subst e; unfold EEPROM_read; by simplify_map_eq).
  assert (H2 : EEPROM_read 18 e = 1)
    by (subst e; unfold EEPROM_read; by simplify_map_eq).
  assert (H3 : EEPROM_read 19 e = 0)
    by (subst e; unfold EEPROM_read; by simplify_map_eq).
  clearbody e.
  split; [exact H0|]. split; [exact H1|]. split; [exact H2|].
  split; [exact H3|].
  exact (proj1 (relay_lines_active_low e ∅ [] []) H0 H1 H2 H3).
Defined.

(** ** [setup]: what it reads and what it drives *)

Lemma relay_pin_elem (i : nat) :
  (i < NUM_RELAYS)%nat → RELAY_PINS !!! i ∈ RELAY_PINS.
Proof. intros Hi. by apply list_elem_of_lookup_total_2. Qed.

Lemma setup_relay_rounds_pins st pin n :
  pin ∉ RELAY_PINS → (n ≤ NUM_RELAYS)%nat →
  pins (foldl setup_relay st (seq 0 n)) !! pin = pins st !! pin.
Proof.
  intros Hpin. induction n as [|n IH]; intros Hn; [done|].
  rewrite seq_S, foldl_snoc. simpl "+".
  unfold setup_relay at 1. cbn [pins emit digitalWrite set_pins set_relay_states].
  rewrite lookup_insert_ne.
  - apply IH. lia.
  - intros Heq. apply Hpin. rewrite <- Heq. apply relay_pin_elem. lia.
Qed.

Lemma pins_setup_begin st : pins (setup_begin st) = pins st.
Proof. done. Qed.

Lemma pins_setup st :
  pins (setup st) = pins (setup_relays (setup_begin st)).
Proof.
  unfold setup. cbv zeta.
  rewrite (proj1 (proj2 (setup_reports_frame _))).
  apply pins_set_hex_codes.
Qed.


(** X1: [setup] only reads the EEPROM: its cells are those found at power
    on, the table in memory is the one stored from offset 0, and every
    channel comes up on exactly when its state byte is nonzero, with its
    line at the matching active-low level. *)
Theorem boot_restores (e : gmap Z Z) (p : gmap Z level) (i : nat) :
  (i < NUM_RELAYS)%nat →
  eeprom (setup (power_on e p)) = e ∧
  hex_codes (setup (power_on e p)) = EEPROM_get 0 e ∧
  relay_states (setup (power_on e p)) !! i
  = Some (negb (EEPROM_read (RELAY_STATE_ADDR + Z.of_nat i) e =? 0)) ∧
  pins (setup (power_on e p)) !! (RELAY_PINS !!! i)
  = Some (relay_level (negb (EEPROM_read (RELAY_STATE_ADDR + Z.of_nat i) e =? 0))).
Proof.
  intros Hi. split; [apply eeprom_setup|]. split; [apply hex_codes_setup|].
  destruct (boot_relay_state e p i Hi) as [_ Hs]. split; [exact Hs|].
  destruct (relay_inv_setup e p) as (_ & Hlow & _).
  rewrite (Hlow i Hi). f_equal. f_equal.
  by apply list_lookup_total_correct.
Qed.

Lemma boot_restores_witness :
  (2 < NUM_RELAYS)%nat ∧
  eeprom (setup (power_on (<[18 := 0]> ∅) ∅)) = <[18 := 0]> ∅ ∧
  relay_states (setup (power_on (<[18 := 0]> ∅) ∅)) !! 2%nat
  = Some (negb (EEPROM_read (RELAY_STATE_ADDR + Z.of_nat 2) (<[18 := 0]> ∅) =? 0)).
Proof.
  assert (Hi : (2 < NUM_RELAYS)%nat) by relay_index.
  split; [exact Hi|].
  destruct (boot_restores (<[18 := 0]> ∅) ∅ 2 Hi) as (He & _ & Hs & _).
  split; [exact He|exact Hs].
Defined.



(** X3: [setup] drives the relay lines and no other: every line that is
    not a relay line, the indicator among them, is left as it was at
    power on. *)
Theorem setup_drives_relay_lines_only (e : gmap Z Z) (p : gmap Z level)
    (pin : Z) :
  pin ∉ RELAY_PINS → pins (setup (power_on e p)) !! pin = p !! pin.
Proof.
  intros Hpin. rewrite pins_setup. unfold setup_relays.
  rewrite setup_relay_rounds_pins by done.
  by rewrite pins_setup_begin.
Qed.

Lemma setup_drives_relay_lines_only_witness :
  (LED_BUILTIN ∉ RELAY_PINS) ∧
  pins (setup (power_on ∅ ∅)) !! LED_BUILTIN
  = ((∅ : gmap Z level) !! LED_BUILTIN).
Proof.
  split; [exact LED_not_relay|].
  exact (setup_drives_relay_lines_only ∅ ∅ LED_BUILTIN LED_not_relay).
Defined.

(** ** [toggleRelay] and the rest of the state *)

Lemma EEPROM_get_ext (e e' : gmap Z Z) :
  (∀ a, 0 ≤ a < 16 → EEPROM_read a e' = EEPROM_read a e) →
  EEPROM_get 0 e' = EEPROM_get 0 e.
Proof.
  intros Hext. unfold EEPROM_get, EEPROM_get_u32.
  cbn [seq map NUM_RELAYS RELAY_PINS length].
  repeat match goal with
    | |- context [EEPROM_read ?a e'] => rewrite (Hext a) by lia
    end.
  reflexivity.
Qed.

Lemma EEPROM_get_update_out a b e :
  ¬ (0 ≤ a < 16) → EEPROM_get 0 (EEPROM_update a b e) = EEPROM_get 0 e.
Proof.
  intros Ha. apply EEPROM_get_ext. intros a' Ha'.
  apply EEPROM_read_update_ne. lia.
Qed.

Lemma hex_codes_toggleRelay j st : hex_codes (toggleRelay j st) = hex_codes st.
Proof. done. Qed.

Lemma codes_in_sync_toggleRelay j st :
  codes_in_sync st → codes_in_sync (toggleRelay j st).
Proof.
  unfold codes_in_sync. intros Hs.
  rewrite hex_codes_toggleRelay, eeprom_toggleRelay, Hs.
  symmetry. apply EEPROM_get_update_out. unfold RELAY_STATE_ADDR. lia.
Qed.

(** X4: [toggleRelay(j)] touches channel [j] alone.  For every other
    channel the state, the line and the state byte stay as they are; so
    do the indicator line, the code table in memory and the code table
    the EEPROM holds. *)
Theorem toggle_leaves_others (j i : nat) (st : state) :
  (j < NUM_RELAYS)%nat → (i < NUM_RELAYS)%nat → i ≠ j →
  relay_states (toggleRelay j st) !! i = relay_states st !! i ∧
  pins (toggleRelay j st) !! (RELAY_PINS !!! i) = pins st !! (RELAY_PINS !!! i) ∧
  state_byte i (toggleRelay j st) = state_byte i st ∧
  pins (toggleRelay j st) !! LED_BUILTIN = pins st !! LED_BUILTIN ∧
  hex_codes (toggleRelay j st) = hex_codes st ∧
  EEPROM_get 0 (eeprom (toggleRelay j st)) = EEPROM_get 0 (eeprom st).
Proof.
  intros Hj Hi Hij.
  rewrite relay_states_toggleRelay, pins_toggleRelay.
  unfold state_byte. rewrite eeprom_toggleRelay.
  split; [by apply list_lookup_insert_ne|]. split.
  { apply lookup_insert_ne. by apply relay_pins_distinct. }
  split; [apply EEPROM_read_update_ne; lia|]. split.
  { apply lookup_insert_ne. by apply relay_pin_not_led. }
  split; [done|].
  apply EEPROM_get_update_out. unfold RELAY_STATE_ADDR. lia.
Qed.

Lemma toggle_leaves_others_witness :
  (0 < NUM_RELAYS)%nat ∧ (3 < NUM_RELAYS)%nat ∧ 3%nat ≠ 0%nat ∧
  relay_states (toggleRelay 0 (power_on ∅ ∅)) !! 3%nat
  = relay_states (power_on ∅ ∅) !! 3%nat ∧
  state_byte 3 (toggleRelay 0 (power_on ∅ ∅)) = state_byte 3 (power_on ∅ ∅).
Proof.
  assert (H0 : (0 < NUM_RELAYS)%nat) by relay_index.
  assert (H3 : (3 < NUM_RELAYS)%nat) by relay_index.
  assert (Hne : 3%nat ≠ 0%nat) by discriminate.
  split; [exact H0|]. split; [exact H3|]. split; [exact Hne|].
  destruct (toggle_leaves_others 0 3 (power_on ∅ ∅) H0 H3 Hne)
    as (Hr & _ & Hb & _).
  split; [exact Hr|exact Hb].
Defined.

(** ** Power cycles *)



(** ** The table learned *)

Lemma accept_all_polled polls p :
  (∀ c, c ∈ p → Some c ∈ polls) →
  ∀ c, c ∈ accept_all polls p → Some c ∈ polls.
Proof.
  apply (accept_all_ind (λ q, ∀ c, c ∈ q → Some c ∈ polls)).
  intros q poll Hpoll Hq c Hc. destruct poll as [c'|]; simpl in Hc; [|by apply Hq].
  case_decide; [|by apply Hq].
  apply elem_of_app in Hc as [Hc|Hc]; [by apply Hq|].
  apply list_elem_of_singleton in Hc as ->. done.
Qed.

Lemma learned_table polls st st' rest :
  enterConfigMode polls st = Returned st' rest →
  hex_codes st' = accept_all polls [] ∧
  length (hex_codes st') = NUM_RELAYS.
Proof.
  intros Hret.
  destruct (enterConfigMode_Returned _ _ _ _ Hret) as (s & Hrun & ->).
  destruct (config_loop_placed _ _ _ _ _ Hrun) as ((Hk & _ & Hc) & _).
  assert (Hh : hex_codes (config_exit s) = accept_all polls []).
  { change (hex_codes (config_exit s)) with (hex_codes s).
    by rewrite Hc, Nat.sub_diag, app_nil_r. }
  split; [exact Hh|]. by rewrite Hh.
Qed.

Lemma learned_first_match polls st st' rest (j : nat) c :
  enterConfigMode polls st = Returned st' rest →
  hex_codes st' !! j = Some c →
  c ≠ CONFIG_IR_CODE ∧ first_match c j st'.
Proof.
  intros Hret Hj. destruct (learned_table _ _ _ _ Hret) as [Hh Hlen].
  pose proof (accept_all_NoDup polls [] (NoDup_nil_2)) as Hnd.
  pose proof (accept_all_learnable polls [] (Forall_nil_2 _)) as Hl.
  rewrite <- Hh in Hnd, Hl.
  split.
  - rewrite Forall_forall in Hl. apply (Hl c).
    apply list_elem_of_lookup. by exists j.
  - split; [|split; [done|]].
    + apply lookup_lt_Some in Hj. lia.
    + intros i Hi Hic.
      pose proof (NoDup_lookup _ _ _ _ Hnd Hic Hj). lia.
Qed.

(** X7: the table a completed Configuring leaves holds [NUM_RELAYS]
    codes that are pairwise distinct, nonzero and different from the
    Trigger Code, each of them one of the codes polled. *)
Theorem learned_table_well_formed (polls rest : list (option Z))
    (st st' : state) :
  enterConfigMode polls st = Returned st' rest →
  length (hex_codes st') = NUM_RELAYS ∧
  NoDup (hex_codes st') ∧
  ∀ c, c ∈ hex_codes st' →
    c ≠ 0 ∧ c ≠ CONFIG_IR_CODE ∧ Some c ∈ polls.
Proof.
  intros Hret. destruct (learned_table _ _ _ _ Hret) as [Hh Hlen].
  split; [exact Hlen|]. rewrite Hh. split.
  - apply accept_all_NoDup. constructor.
  - intros c Hc.
    pose proof (accept_all_learnable polls [] (Forall_nil_2 _)) as Hl.
    rewrite Forall_forall in Hl. destruct (Hl c Hc) as [H0 Ht].
    split; [exact H0|]. split; [exact Ht|].
    apply (accept_all_polled polls []); [|done].
    intros c' Hc'. by apply elem_of_nil in Hc'.
Qed.

Lemma scenario_returns :
  enterConfigMode scenario_polls (power_on ∅ ∅) = Returned scenario_state [].
Proof. by vm_compute. Qed.

Lemma learned_table_well_formed_witness :
  enterConfigMode scenario_polls (power_on ∅ ∅) = Returned scenario_state [] ∧
  length (hex_codes scenario_state) = NUM_RELAYS ∧
  NoDup (hex_codes scenario_state).
Proof.
  split; [exact scenario_returns|].
  destruct (learned_table_well_formed _ _ _ _ scenario_returns) as (Hl & Hnd & _).
  split; [exact Hl|exact Hnd].
Defined.

(** X8: after a completed Configuring each learned code drives the
    channel of its own slot: receiving in Normal mode the code stored in
    slot [j] performs [toggleRelay(j)] once and nothing else. *)
Theorem learned_code_toggles_own_channel (polls rest polls' : list (option Z))
    (st st' : state) (j : nat) (c : Z) :
  enterConfigMode polls st = Returned st' rest →
  hex_codes st' !! j = Some c →
  toggled_once c j polls' st'.
Proof.
  intros Hret Hj.
  destruct (learned_first_match _ _ _ _ _ _ Hret Hj) as [Hc Hm].
  by apply handle_ir_first_match.
Qed.

Lemma scenario_table : hex_codes scenario_state = [0x11; 0x22; 0x33; 0x44].
Proof.
  rewrite (proj1 (learned_table _ _ _ _ scenario_returns)). by vm_compute.
Qed.

Lemma learned_code_toggles_own_channel_witness :
  enterConfigMode scenario_polls (power_on ∅ ∅) = Returned scenario_state [] ∧
  hex_codes scenario_state !! 2%nat = Some 0x33 ∧
  toggled_once 0x33 2 [] scenario_state.
Proof.
  assert (Hj : hex_codes scenario_state !! 2%nat = Some 0x33)
    by (by rewrite scenario_table).
  split; [exact scenario_returns|]. split; [exact Hj|].
  exact (learned_code_toggles_own_channel _ _ [] _ _ _ _ scenario_returns Hj).
Defined.

(** ** Codes that match no slot *)

Lemma scan_none n : ∀ (i : nat) c st,
  (∀ i' : nat, (i ≤ i' < i + n)%nat → hex_codes st !!! i' ≠ c) →
  scan n i c st = st.
Proof.
  induction n as [|n IH]; intros i c st Hno; simpl; [done|].
  rewrite decide_False.
  - apply IH. intros i' Hi'. apply Hno. lia.
  - intros Heq. apply (Hno i); [lia|done].
Qed.

Lemma scan_cases n : ∀ (i : nat) c st,
  scan n i c st = st ∨
  ∃ j : nat, (i ≤ j < i + n)%nat ∧ scan n i c st = toggleRelay j st.
Proof.
  induction n as [|n IH]; intros i c st; simpl; [by left|].
  case_decide.
  - right. exists i. split; [lia|done].
  - destruct (IH (S i) c st) as [Hs|(j & Hj & Hs)]; [by left|].
    right. exists j. split; [lia|done].
Qed.

Lemma handle_ir_no_match c polls st :
  length (hex_codes st) = NUM_RELAYS → c ≠ CONFIG_IR_CODE →
  c ∉ hex_codes st →
  handle_ir c polls st = Returned (emit IrResume (ir_reported c st)) polls.
Proof.
  intros Hlen Hc Hnot. unfold handle_ir.
  rewrite (proj2 (Z.eqb_neq _ _) Hc).
  rewrite scan_none; [done|].
  intros i Hi Heq. apply Hnot.
  change (hex_codes (emit (SerialPrintlnHex c)
            (emit (SerialPrint "IR Received: ") st))) with (hex_codes st) in Heq.
  rewrite <- Heq. apply list_elem_of_lookup_total_2. lia.
Qed.

(** X9: a received code that is not the Trigger Code and is held by no
    slot of the table is reported and dropped: [loop] goes on with the
    same polls, and apart from the report of the code and the resume of
    the decoder the state is unchanged: no relay state, line, EEPROM cell
    or table slot differs. *)
Theorem unknown_code_only_reported (c : Z) (polls : list (option Z))
    (st : state) :
  length (hex_codes st) = NUM_RELAYS → c ≠ CONFIG_IR_CODE →
  c ∉ hex_codes st →
  ∃ st', handle_ir c polls st = Returned st' polls ∧
    relay_states st' = relay_states st ∧ pins st' = pins st ∧
    eeprom st' = eeprom st ∧ hex_codes st' = hex_codes st ∧
    trace st' = trace st ++
      [SerialPrint "IR Received: "; SerialPrintlnHex c; IrResume].
Proof.
  intros Hlen Hc Hnot.
  exists (emit IrResume (ir_reported c st)).
  split; [by apply handle_ir_no_match|].
  repeat (split; [done|]).
  unfold ir_reported. rewrite !trace_emit. by rewrite <- !app_assoc.
Qed.

Lemma unknown_code_only_reported_witness :
  length (hex_codes scenario_state) = NUM_RELAYS ∧
  0x55 ≠ CONFIG_IR_CODE ∧ (0x55 ∉ hex_codes scenario_state) ∧
  ∃ st', handle_ir 0x55 [] scenario_state = Returned st' [] ∧
         relay_states st' = relay_states scenario_state.
Proof.
  assert (Hlen : length (hex_codes scenario_state) = NUM_RELAYS)
    by (by rewrite scenario_table).
  assert (Hc : 0x55 ≠ CONFIG_IR_CODE) by discriminate.
  assert (Hnot : 0x55 ∉ hex_codes scenario_state).
  { rewrite scenario_table. apply (bool_decide_unpack _). by vm_compute. }
  split; [exact Hlen|]. split; [exact Hc|]. split; [exact Hnot|].
  destruct (unknown_code_only_reported 0x55 [] scenario_state Hlen Hc Hnot)
    as (st' & Hret & Hrs & _).
  exists st'. split; [exact Hret|exact Hrs].
Defined.

(** X10: once a Configuring has completed, the code 0 drives no relay:
    every slot holds a nonzero code, so a received 0 is reported and
    dropped. *)
Theorem zero_dropped_after_learning (polls rest polls' : list (option Z))
    (st st' : state) :
  enterConfigMode polls st = Returned st' rest →
  handle_ir 0 polls' st' = Returned (emit IrResume (ir_reported 0 st')) polls'.
Proof.
  intros Hret. destruct (learned_table _ _ _ _ Hret) as [Hh Hlen].
  apply handle_ir_no_match; [done|discriminate|].
  rewrite Hh. intros Hin.
  pose proof (accept_all_learnable polls [] (Forall_nil_2 _)) as Hl.
  rewrite Forall_forall in Hl. by destruct (Hl 0 Hin) as [H0 _].
Qed.

Lemma zero_dropped_after_learning_witness :
  enterConfigMode scenario_polls (power_on ∅ ∅) = Returned scenario_state [] ∧
  handle_ir 0 [] scenario_state
  = Returned (emit IrResume (ir_reported 0 scenario_state)) [].
Proof.
  split; [exact scenario_returns|].
  exact (zero_dropped_after_learning _ _ [] _ _ scenario_returns).
Defined.

(** ** One pass of [loop] *)

Lemma relay_states_enterConfigMode polls st :
  relay_states (final_state (enterConfigMode polls st)) = relay_states st.
Proof. by destruct (enterConfigMode_frame polls st) as ((Hr & _) & _). Qed.

Lemma relay_states_check_button b polls st :
  relay_states (final_state (check_button b polls st)) = relay_states st.
Proof.
  unfold check_button. destruct (first_read b); [|done].
  destruct (second_read b); [|done].
  by rewrite relay_states_enterConfigMode.
Qed.

Lemma handle_ir_one_toggle c polls st :
  relay_states (final_state (handle_ir c polls st)) = relay_states st ∨
  ∃ j : nat, (j < NUM_RELAYS)%nat ∧
    relay_states (final_state (handle_ir c polls st))
    = <[j := negb (relay_states st !!! j)]> (relay_states st).
Proof.
  destruct (decide (c = CONFIG_IR_CODE)) as [->|Hc].
  - left. by destruct (handle_ir_trigger_frame polls st) as ((Hr & _) & _).
  - unfold handle_ir. rewrite (proj2 (Z.eqb_neq _ _) Hc).
    cbn [final_state].
    destruct (scan_cases NUM_RELAYS 0 c
      (emit (SerialPrintlnHex c) (emit (SerialPrint "IR Received: ") st)))
      as [Hs|(j & Hj & Hs)]; rewrite Hs.
    + by left.
    + right. exists j. split; [lia|done].
Qed.

(** X11: one pass of [loop] toggles at most one relay: whatever the
    button reads and the polls, the relay states after the pass are those
    before it, or differ from them by the flip of a single channel. *)
Theorem loop_toggles_at_most_one (b : button) (polls : list (option Z))
    (st : state) :
  relay_states (final_state (loop b polls st)) = relay_states st ∨
  ∃ j : nat, (j < NUM_RELAYS)%nat ∧
    relay_states (final_state (loop b polls st))
    = <[j := negb (relay_states st !!! j)]> (relay_states st).
Proof.
  unfold loop.
  pose proof (relay_states_check_button b polls st) as Hb.
  destruct (check_button b polls st) as [s rest|s]; simpl in Hb; [|by left].
  destruct rest as [|[c|] rest]; [by left| |by left].
  rewrite <- Hb. apply handle_ir_one_toggle.
Qed.

(** ** Where the learning loop stops reading *)

Lemma config_loop_full polls k st :
  ¬ (k < NUM_RELAYS)%nat → config_loop polls k st = (k, st, polls).
Proof. intros Hk. destruct polls; simpl; by rewrite decide_False. Qed.

Lemma config_loop_split polls : ∀ k st k' s rest,
  config_loop polls k st = (k', s, rest) →
  ∃ used, polls = used ++ rest ∧
    (¬ (k' < NUM_RELAYS)%nat →
     ∀ later, config_loop (used ++ later) k st = (k', s, later)).
Proof.
  induction polls as [|poll polls IH]; intros k st k' s rest Hrun.
  - rewrite config_loop_nil in Hrun. injection Hrun as <- <- <-.
    exists []. split; [done|]. intros Hk later. by apply config_loop_full.
  - destruct (decide (k < NUM_RELAYS)%nat) as [Hk|Hk].
    + rewrite config_loop_cons in Hrun by done.
      destruct (IH _ _ _ _ _ Hrun) as (used & -> & Hlater).
      exists (poll :: used). split; [done|]. intros Hk' later.
      rewrite <- app_comm_cons, config_loop_cons by done. by apply Hlater.
    + rewrite config_loop_full in Hrun by done. injection Hrun as <- <- <-.
      exists []. split; [done|]. intros _ later. by apply config_loop_full.
Qed.



(** X13: an interruption while the learning loop is waiting for a code
    keeps the old codes: whenever [enterConfigMode] is still inside its
    [while] loop, the polls so far having placed fewer than [NUM_RELAYS]
    codes, the EEPROM is the one of its entry, so a [setup] run on it
    loads the table stored before the learning began, whatever was placed
    in the buffer meanwhile.  (Nothing is said of the statements after
    the loop, where the table is being saved.) *)
Theorem interrupted_learning_keeps_old_table (polls : list (option Z))
    (st st' : state) (p : gmap Z level) :
  enterConfigMode polls st = Pending st' →
  eeprom st' = eeprom st ∧
  hex_codes (setup (power_on (eeprom st') p)) = EEPROM_get 0 (eeprom st).
Proof.
  intros Hpend. unfold enterConfigMode in Hpend.
  destruct (config_loop polls 0 (config_entry st)) as [[k s] r] eqn:Hrun.
  case_decide; [|done]. injection Hpend as ->.
  pose proof (signals_only_config_loop polls 0 (config_entry st)) as Hloop.
  rewrite Hrun in Hloop. simpl in Hloop.
  destruct (signals_only_trans _ _ _ (signals_only_config_entry st) Hloop)
    as (He & _).
  split; [exact He|]. by rewrite hex_codes_setup, He.
Qed.

Lemma interrupted_learning_keeps_old_table_witness :
  enterConfigMode [Some 0x11; None] (power_on ∅ ∅)
  = Pending (final_state (enterConfigMode [Some 0x11; None] (power_on ∅ ∅))) ∧
  eeprom (final_state (enterConfigMode [Some 0x11; None] (power_on ∅ ∅)))
  = eeprom (power_on ∅ ∅).
Proof.
  assert (Hp : enterConfigMode [Some 0x11; None] (power_on ∅ ∅)
    = Pending (final_state (enterConfigMode [Some 0x11; None] (power_on ∅ ∅))))
    by by vm_compute.
  split; [exact Hp|].
  exact (proj1 (interrupted_learning_keeps_old_table _ _ _ ∅ Hp)).
Defined.

(** ** The code table across power cycles *)

Lemma codes_in_sync_setup e p : codes_in_sync (setup (power_on e p)).
Proof. unfold codes_in_sync. by rewrite hex_codes_setup, eeprom_setup. Qed.

Lemma codes_in_sync_emit ev st : codes_in_sync st → codes_in_sync (emit ev st).
Proof. intros H. exact H. Qed.

Lemma codes_in_sync_scan n : ∀ i c st,
  codes_in_sync st → codes_in_sync (scan n i c st).
Proof.
  induction n as [|n IH]; intros i c st Hs; simpl; [done|].
  case_decide; [by apply codes_in_sync_toggleRelay|by apply IH].
Qed.

Lemma normal_ok_enterConfigMode polls st :
  Forall poll_uint32 polls → normal_ok (enterConfigMode polls st).
Proof.
  intros Hpolls.
  destruct (enterConfigMode polls st) as [st' rest|st'] eqn:Hret; [|done].
  destruct (learned_table _ _ _ _ Hret) as [Hh Hlen].
  destruct (enterConfigMode_Returned _ _ _ _ Hret) as (s & Hrun & ->).
  destruct (config_loop_split _ _ _ _ _ _ Hrun) as (used & Hp & _).
  split.
  - unfold codes_in_sync.
    change (eeprom (config_exit s))
      with (EEPROM_put 0 (hex_codes (config_exit s)) (eeprom s)).
    rewrite EEPROM_get_put; [done|done|].
    rewrite Hh. apply accept_all_uint32; [done|constructor].
  - rewrite Hp in Hpolls. by apply Forall_app in Hpolls as [_ ?].
Qed.

Lemma normal_ok_handle_ir c polls st :
  codes_in_sync st → Forall poll_uint32 polls →
  normal_ok (handle_ir c polls st).
Proof.
  intros Hs Hpolls. unfold handle_ir.
  destruct (c =? CONFIG_IR_CODE).
  - pose proof (normal_ok_enterConfigMode polls
      (emit (SerialPrintln "IR Config Trigger")
         (emit (SerialPrintlnHex c) (emit (SerialPrint "IR Received: ") st)))
      Hpolls) as Hc.
    destruct (enterConfigMode _ _) as [s rest|s]; [|done].
    destruct Hc as [Hc Hrest]. split; [exact Hc|exact Hrest].
  - split; [|done]. apply codes_in_sync_emit.
    apply (codes_in_sync_scan NUM_RELAYS 0). exact Hs.
Qed.

Lemma normal_ok_check_button b polls st :
  codes_in_sync st → Forall poll_uint32 polls →
  normal_ok (check_button b polls st).
Proof.
  intros Hs Hpolls. unfold check_button.
  destruct (first_read b); [|by split].
  destruct (second_read b); [|by split].
  by apply normal_ok_enterConfigMode.
Qed.

Lemma normal_ok_loop b polls st :
  codes_in_sync st → Forall poll_uint32 polls → normal_ok (loop b polls st).
Proof.
  intros Hs Hpolls. unfold loop.
  pose proof (normal_ok_check_button b polls st Hs Hpolls) as Hb.
  destruct (check_button b polls st) as [s rest|s]; [|done].
  destruct Hb as [Hs' Hrest].
  destruct rest as [|[c|] rest]; [done| |].
  - apply Forall_cons in Hrest as [_ Hrest]. by apply normal_ok_handle_ir.
  - apply Forall_cons in Hrest as [_ Hrest]. by split.
Qed.

Lemma normal_ok_run bs : ∀ polls st,
  codes_in_sync st → Forall poll_uint32 polls → normal_ok (run bs polls st).
Proof.
  induction bs as [|b bs IH]; intros polls st Hs Hpolls; simpl; [by split|].
  pose proof (normal_ok_loop b polls st Hs Hpolls) as Hl.
  destruct (loop b polls st) as [s rest|s]; [|done].
  destruct Hl as [Hs' Hrest]. by apply IH.
Qed.

(** X6: whenever the sketch is in Normal mode, the code table in memory
    is the one the EEPROM holds: after [setup] and any number of passes of
    [loop] that have returned, on polls that are [uint32_t] values, a
    [setup] run on the EEPROM as it then is loads the very table in
    use. *)
Theorem code_table_survives_power_cycle (e : gmap Z Z) (p p' : gmap Z level)
    (bs : list button) (polls rest : list (option Z)) (st : state) :
  Forall poll_uint32 polls →
  sketch e p bs polls = Returned st rest →
  hex_codes st = EEPROM_get 0 (eeprom st) ∧
  hex_codes (setup (power_on (eeprom st) p')) = hex_codes st.
Proof.
  intros Hpolls Hret.
  pose proof (normal_ok_run bs polls (setup (power_on e p))
                (codes_in_sync_setup e p) Hpolls) as Hok.
  unfold sketch in Hret. rewrite Hret in Hok. destruct Hok as [Hs _].
  split; [exact Hs|]. by rewrite hex_codes_setup.
Qed.

Lemma code_table_survives_power_cycle_witness :
  Forall poll_uint32 [None; Some 0x11] ∧
  sketch ∅ ∅ [mkButton HIGH HIGH] [None; Some 0x11]
  = Returned (setup (power_on ∅ ∅)) [Some 0x11] ∧
  hex_codes (setup (power_on ∅ ∅))
  = EEPROM_get 0 (eeprom (setup (power_on ∅ ∅))).
Proof.
  assert (Hpolls : Forall poll_uint32 [None; Some 0x11])
    by (repeat constructor; unfold is_uint32; by vm_compute).
  assert (Hret : sketch ∅ ∅ [mkButton HIGH HIGH] [None; Some 0x11]
                 = Returned (setup (power_on ∅ ∅)) [Some 0x11])
    by reflexivity.
  split; [exact Hpolls|]. split; [exact Hret|].
  exact (proj1 (code_table_survives_power_cycle _ _ ∅ _ _ _ _ Hpolls Hret)).
Defined.

(** ** The table learned, as a function of the polls *)

Lemma foldl_accept_place polls : ∀ p,
  foldl accept p polls = foldl place p (learnable_codes polls).
Proof.
  induction polls as [|poll polls IH]; intros p; [done|].
  cbn [foldl]. rewrite IH. unfold learnable_codes. cbn [omap list_omap].
  destruct poll as [c|]; [|done]. simpl accept.
  destruct (decide (learnable c)) as [Hl|Hl]; cbn [foldl].
  - f_equal. unfold place.
    destruct (decide (c ∈ p)); [by rewrite decide_False by tauto|].
    by rewrite decide_True.
  - by rewrite decide_False by tauto.
Qed.

Lemma accept_all_take polls : ∀ p,
  (length p ≤ NUM_RELAYS)%nat →
  accept_all polls p = take NUM_RELAYS (foldl accept p polls).
Proof.
  induction polls as [|poll polls IH]; intros p Hp; simpl.
  - case_decide; by rewrite take_ge by lia.
  - case_decide as Hlt.
    + apply IH. destruct (accept_length p poll); lia.
    + destruct (foldl_accept_prefix polls (accept p poll)) as [k1 ->].
      destruct (accept_prefix p poll) as [k2 ->].
      rewrite <- app_assoc.
      replace NUM_RELAYS with (length p) by lia.
      by rewrite take_app_length.
Qed.

(** X14: the table a completed Configuring leaves is a function of the
    polls alone: it holds, in the order of their first occurrence, the
    first [NUM_RELAYS] distinct codes among the polled codes that are
    nonzero and not the Trigger Code. *)
Theorem learned_table_first_occurrences (polls rest : list (option Z))
    (st st' : state) :
  enterConfigMode polls st = Returned st' rest →
  hex_codes st'
  = take NUM_RELAYS (first_occurrences (learnable_codes polls)).
Proof.
  intros Hret. rewrite (proj1 (learned_table _ _ _ _ Hret)).
  rewrite accept_all_take by (simpl; lia).
  by rewrite foldl_accept_place.
Qed.

Lemma learned_table_first_occurrences_witness :
  enterConfigMode scenario_polls (power_on ∅ ∅) = Returned scenario_state [] ∧
  hex_codes scenario_state
  = take NUM_RELAYS (first_occurrences (learnable_codes scenario_polls)).
Proof.
  split; [exact scenario_returns|].
  exact (learned_table_first_occurrences _ _ _ _ scenario_returns).
Defined.

(** ** The config button *)

(** X15: the config button never toggles a relay: whatever its two
    reads and whatever the polls, [check_button] leaves the relay states,
    the relay lines and the state bytes as they were, also when it goes
    through a whole Configuring. *)
Theorem button_never_toggles (b : button) (polls : list (option Z))
    (st : state) :
  relays_untouched st (final_state (check_button b polls st)).
Proof.
  assert (Hrefl : relays_untouched st st) by (by split).
  unfold check_button. destruct (first_read b); [|exact Hrefl].
  destruct (second_read b); [|exact Hrefl].
  exact (proj1 (enterConfigMode_frame polls (delay 50 st))).
Qed.

(** ** The indicator *)

Lemma led_scan n : ∀ (i : nat) c st,
  (i + n ≤ NUM_RELAYS)%nat →
  pins (scan n i c st) !! LED_BUILTIN = pins st !! LED_BUILTIN.
Proof.
  induction n as [|n IH]; intros i c st Hn; simpl; [done|].
  case_decide.
  - rewrite pins_toggleRelay. apply lookup_insert_ne.
    apply relay_pin_not_led. lia.
  - apply IH. lia.
Qed.

(** X16: a completed Configuring leaves the indicator on, and the
    dispatch of a received code other than the Trigger Code leaves the
    indicator line as it is, whether or not a relay is toggled. *)
Theorem indicator_on_after_learning (polls rest polls' : list (option Z))
    (st st' : state) (c : Z) :
  enterConfigMode polls st = Returned st' rest → c ≠ CONFIG_IR_CODE →
  digitalRead LED_BUILTIN st' = HIGH ∧
  digitalRead LED_BUILTIN (final_state (handle_ir c polls' st')) = HIGH.
Proof.
  intros Hret Hc.
  destruct (enterConfigMode_Returned _ _ _ _ Hret) as (s & _ & ->).
  assert (Hled : digitalRead LED_BUILTIN (config_exit s) = HIGH)
    by (unfold config_exit; apply digitalRead_digitalWrite).
  split; [exact Hled|].
  unfold handle_ir. rewrite (proj2 (Z.eqb_neq _ _) Hc). cbn [final_state].
  rewrite digitalRead_emit. unfold digitalRead in *.
  rewrite led_scan by lia. exact Hled.
Qed.

Lemma indicator_on_after_learning_witness :
  enterConfigMode scenario_polls (power_on ∅ ∅) = Returned scenario_state [] ∧
  0x22 ≠ CONFIG_IR_CODE ∧
  digitalRead LED_BUILTIN scenario_state = HIGH ∧
  digitalRead LED_BUILTIN (final_state (handle_ir 0x22 [] scenario_state)) = HIGH.
Proof.
  assert (Hc : 0x22 ≠ CONFIG_IR_CODE) by discriminate.
  split; [exact scenario_returns|]. split; [exact Hc|].
  exact (indicator_on_after_learning _ _ [] _ _ 0x22 scenario_returns Hc).
Defined.

(** ** The filled-count, as a function of the polls *)

Lemma learnable_codes_app l1 l2 :
  learnable_codes (l1 ++ l2) = learnable_codes l1 ++ learnable_codes l2.
Proof. unfold learnable_codes. apply omap_app. Qed.

Lemma first_occurrences_snoc l x :
  first_occurrences (l ++ [x]) = place (first_occurrences l) x.
Proof. unfold first_occurrences. apply foldl_snoc. Qed.

Lemma place_length acc x : (length (place acc x) ≤ S (length acc))%nat.
Proof.
  unfold place. case_decide; [lia|]. rewrite length_app. simpl. lia.
Qed.

(** One more poll adds at most one distinct learnable code. *)
Lemma distinct_learnable_snoc l poll :
  (length (first_occurrences (learnable_codes (l ++ [poll])))
   ≤ S (length (first_occurrences (learnable_codes l))))%nat.
Proof.
  rewrite learnable_codes_app.
  destruct poll as [c|]; cbn [learnable_codes omap list_omap].
  - destruct (decide (learnable c)).
    + rewrite first_occurrences_snoc. apply place_length.
    + rewrite app_nil_r. lia.
  - rewrite app_nil_r. lia.
Qed.

(** The buffer and the count at any point of the loop: the distinct
    learnable codes polled so far, in the order of their first
    occurrence, up to [NUM_RELAYS] of them. *)
Lemma config_loop_first_occurrences st polls k s r :
  config_loop polls 0 (config_entry st) = (k, s, r) →
  filled_with (take NUM_RELAYS (first_occurrences (learnable_codes polls))) k s.
Proof.
  intros Hrun. destruct (config_loop_placed _ _ _ _ _ Hrun) as (Hf & _).
  rewrite accept_all_take, foldl_accept_place in Hf by (simpl; lia).
  exact Hf.
Qed.

(** The polls the loop has read: it read each of them at a count below
    [NUM_RELAYS], and run on them alone it ends in the same state. *)
Lemma config_loop_consumed polls : ∀ k st k' s rest,
  config_loop polls k st = (k', s, rest) →
  ∃ used, polls = used ++ rest ∧
    config_loop used k st = (k', s, []) ∧
    ∀ shorter poll later, used = shorter ++ poll :: later →
      ((config_loop shorter k st).1.1 < NUM_RELAYS)%nat.
Proof.
  induction polls as [|poll polls IH]; intros k st k' s rest Hrun.
  - rewrite config_loop_nil in Hrun. injection Hrun as <- <- <-.
    exists []. split; [done|]. split; [apply config_loop_nil|].
    intros shorter poll later Heq. by destruct shorter.
  - destruct (decide (k < NUM_RELAYS)%nat) as [Hk|Hk].
    + rewrite config_loop_cons in Hrun by done.
      destruct (IH _ _ _ _ _ Hrun) as (used & -> & Hused & Hmin).
      exists (poll :: used). split; [done|]. split.
      * by rewrite config_loop_cons.
      * intros shorter x later Heq. destruct shorter as [|y shorter].
        -- by rewrite config_loop_nil.
        -- injection Heq as <- Heq. rewrite config_loop_cons by done.
           by eapply Hmin.
    + rewrite config_loop_full in Hrun by done. injection Hrun as <- <- <-.
      exists []. split; [done|]. split; [apply config_loop_nil|].
      intros shorter x later Heq. by destruct shorter.
Qed.

(** C6: when the polls fed to Configuring contain [NUM_RELAYS] pairwise
    distinct codes that are nonzero and not the Trigger Code, the loop is
    left and [enterConfigMode] returns, whatever else is interleaved.  It
    has then read the polls [used] up to the one at which the number of
    distinct learnable codes polled reaches [NUM_RELAYS] (before any poll
    it read, that number was below [NUM_RELAYS]) and no poll after it;
    the filled-count is [NUM_RELAYS] and the buffer holds exactly these
    [NUM_RELAYS] codes, in the order of their first occurrence.  At any
    point of the loop the filled-count is the number of distinct learnable
    codes polled so far (at most [NUM_RELAYS]), so that duplicate, zero
    and Trigger Code submissions, however many, do not count; and one
    iteration on a submission that is turned down (zero, Trigger Code, or
    a code already placed) leaves the filled-count as it was. *)
Theorem configuring_terminates (st : state) (polls : list (option Z))
    (ds : list Z) :
  NoDup ds → length ds = NUM_RELAYS →
  (∀ d, d ∈ ds → d ≠ 0 ∧ d ≠ CONFIG_IR_CODE ∧ Some d ∈ polls) →
  (∃ st_loop used rest,
     polls = used ++ rest ∧
     config_loop polls 0 (config_entry st) = (NUM_RELAYS, st_loop, rest) ∧
     enterConfigMode polls st = Returned (config_exit st_loop) rest ∧
     hex_codes st_loop = first_occurrences (learnable_codes used) ∧
     length (first_occurrences (learnable_codes used)) = NUM_RELAYS ∧
     ∀ shorter poll later, used = shorter ++ poll :: later →
       (length (first_occurrences (learnable_codes shorter)) < NUM_RELAYS)%nat) ∧
  (∀ polls0 k s r,
     config_loop polls0 0 (config_entry st) = (k, s, r) →
     k = (NUM_RELAYS `min`
          length (first_occurrences (learnable_codes polls0)))%nat ∧
     take k (hex_codes s)
     = take NUM_RELAYS (first_occurrences (learnable_codes polls0))) ∧
  (∀ c k s, rejected c k s → (config_iter (Some c) k s).1 = k).
Proof.
  intros Hnd Hlen Hds.
  assert (Hcount : ∀ polls0 k s r,
            config_loop polls0 0 (config_entry st) = (k, s, r) →
            k = (NUM_RELAYS `min`
                 length (first_occurrences (learnable_codes polls0)))%nat ∧
            take k (hex_codes s)
            = take NUM_RELAYS (first_occurrences (learnable_codes polls0))).
  { intros polls0 k s r Hrun.
    destruct (config_loop_first_occurrences _ _ _ _ _ Hrun) as (Hk & _ & Hc).
    split; [by rewrite Hk, length_take|].
    rewrite Hc, Hk. by rewrite take_app_length. }
  split; [|split; [exact Hcount|]].
  - destruct (config_loop polls 0 (config_entry st)) as [[k s] r] eqn:Hrun.
    destruct (config_loop_placed _ _ _ _ _ Hrun) as ((Hk & _ & _) & _).
    assert (Hfull : length (accept_all polls []) = NUM_RELAYS).
    { apply (accept_all_full polls [] ds).
      - simpl. lia.
      - done.
      - apply Forall_forall. intros d Hd. destruct (Hds d Hd) as (? & ? & _).
        by split.
      - intros d Hd. destruct (Hds d Hd) as (_ & _ & ?). split; [done|].
        apply not_elem_of_nil.
      - simpl. lia. }
    rewrite Hfull in Hk. subst k.
    destruct (config_loop_consumed _ _ _ _ _ _ Hrun) as (used & Hp & Hused & Hmin).
    assert (Hbelow : ∀ shorter poll later, used = shorter ++ poll :: later →
              (length (first_occurrences (learnable_codes shorter))
               < NUM_RELAYS)%nat).
    { intros shorter poll later Heq.
      pose proof (Hmin _ _ _ Heq) as Hlt.
      destruct (config_loop shorter 0 (config_entry st)) as [[k' s'] r'] eqn:Hsh.
      destruct (Hcount _ _ _ _ Hsh) as [Hk' _]. simpl in Hlt. lia. }
    destruct (Hcount _ _ _ _ Hused) as [HN _].
    assert (Hle : (length (first_occurrences (learnable_codes used))
                   ≤ NUM_RELAYS)%nat).
    { destruct used as [|x used _] using rev_ind; [simpl; lia|].
      pose proof (Hbelow used x [] eq_refl).
      pose proof (distinct_learnable_snoc used x). lia. }
    exists s, used, r. split; [exact Hp|]. split; [done|]. split.
    { unfold enterConfigMode. rewrite Hrun. by rewrite decide_False by lia. }
    split; [|split; [lia|exact Hbelow]].
    destruct (config_loop_first_occurrences _ _ _ _ _ Hused) as (_ & _ & Hc).
    rewrite Hc, Nat.sub_diag, app_nil_r. by rewrite take_ge.
  - intros c k s [Hc|[Hc|(j & Hj & Hc)]].
    + rewrite config_iter_ignored; [done|]. unfold learnable. tauto.
    + rewrite config_iter_ignored; [done|]. unfold learnable. tauto.
    + destruct (decide (learnable c)) as [Hl|Hl].
      * rewrite config_iter_duplicate; [done..|].
        by apply (is_duplicate_rejected c k s j).
      * by rewrite config_iter_ignored.
Qed.

Lemma configuring_terminates_witness :
  let polls := [Some 5; None; Some 0; Some 5; Some 6; Some CONFIG_IR_CODE;
                Some 7; Some 6; Some 8; Some 9] in
  let ds := [5; 6; 7; 8] in
  NoDup ds ∧ length ds = NUM_RELAYS ∧
  (∀ d, d ∈ ds → d ≠ 0 ∧ d ≠ CONFIG_IR_CODE ∧ Some d ∈ polls) ∧
  ∃ st_loop used rest,
    polls = used ++ rest ∧
    config_loop polls 0 (config_entry (power_on ∅ ∅))
      = (NUM_RELAYS, st_loop, rest) ∧
    enterConfigMode polls (power_on ∅ ∅) = Returned (config_exit st_loop) rest ∧
    hex_codes st_loop = first_occurrences (learnable_codes used) ∧
    length (first_occurrences (learnable_codes used)) = NUM_RELAYS.
Proof.
  intros polls ds.
  assert (Hnd : NoDup ds) by (apply (bool_decide_unpack _); by vm_compute).
  assert (Hlen : length ds = NUM_RELAYS) by reflexivity.
  assert (Hds : ∀ d, d ∈ ds → d ≠ 0 ∧ d ≠ CONFIG_IR_CODE ∧ Some d ∈ polls).
  { intros d Hd. subst ds polls.
    repeat (apply elem_of_cons in Hd as [->|Hd]);
      [..|by apply elem_of_nil in Hd];
      (split; [discriminate|split; [discriminate|]]);
      apply (bool_decide_unpack _); by vm_compute. }
  split; [done|]. split; [done|]. split; [done|].
  destruct (proj1 (configuring_terminates (power_on ∅ ∅) polls ds Hnd Hlen Hds))
    as (st_loop & used & rest & Hp & Hrun & Hret & Hh & Hn & _).
  exists st_loop, used, rest.
  split; [exact Hp|]. split; [exact Hrun|]. split; [exact Hret|].
  split; [exact Hh|exact Hn].
Defined.
